(** * CuBIDS [cubids/validator.py]: a shallow embedding and its properties

    The module wraps the external BIDS validator.  Two pieces carry logic:
    [build_subject_paths], which splits a dataset directory into one file
    list per subject, and [parse_validator_output] with its helper
    [parse_issue], which flattens the validator's JSON report into a table.
    [get_val_dictionary] is the constant data dictionary of that table.

    Python objects are modelled as the inductive type [value]; exceptions as
    the [Raised] branch of [result]; standard output as a list of printed
    lines; the host's directory listing ([glob.glob], [os.path.isfile]) as a
    record of functions, with a directory-tree instance for concrete runs.
    [run_validator] only spawns the external process and is left out. *)

From Stdlib Require Import ZArith Ascii.
From stdpp Require Import gmap strings list.

Set Warnings "-register-all".
Local Open Scope Z_scope.
Local Open Scope nat_scope.

(** ** Python objects, exceptions and the built-ins the module uses *)

Module Py.

(** The objects [json.loads] can build.  A [str] is kept as its UTF-8
    bytes; a [float] is kept as the literal it was read from (no claim
    needs its numeric value); a [dict] is an association list in insertion
    order with at most one binding per key. *)
Inductive value : Type :=
| VNone
| VBool (b : bool)
| VInt (z : Z)
| VFloat (literal : string)
| VStr (s : string)
| VList (items : list value)
| VDict (bindings : list (string * value)).

Abbreviation pydict := (list (string * value)).

(** The exceptions that can leave the functions of this module.  The text
    that [str(e)] gives for a [JSONDecodeError] is not modelled. *)
Inductive exn : Type :=
| JSONDecodeError
| AttributeError
| TypeError
| ValueError (msg : string).

Inductive result (A : Type) : Type :=
| Returned (a : A)
| Raised (e : exn).
Arguments Returned {A} a.
Arguments Raised {A} e.

(** Sequencing: an exception raised by the first statement skips the rest.
    The instance gives [result] the notation [x ← r; k]. *)
#[global] Instance result_bind : MBind result :=
  λ A B (k : A → result B) (r : result A),
    match r with
    | Returned a => k a
    | Raised e => Raised e
    end.

(** [d[k]] lookup on an association list: the first binding of [k]. *)
Fixpoint dict_lookup (k : string) (d : pydict) : option value :=
  match d with
  | [] => None
  | (k', v) :: d' => if String.eqb k k' then Some v else dict_lookup k d'
  end.

(** [d[k] = v]: an existing key keeps its position, a new key goes last. *)
Fixpoint dict_set (k : string) (v : value) (d : pydict) : pydict :=
  match d with
  | [] => [(k, v)]
  | (k', v') :: d' =>
      if String.eqb k k' then (k, v) :: d' else (k', v') :: dict_set k v d'
  end.

(** [obj.get(k, default)].  Only a [dict] has the method: on any other
    object the attribute lookup raises [AttributeError]. *)
Definition get (obj : value) (k : string) (default : value) : result value :=
  match obj with
  | VDict d =>
      Returned (match dict_lookup k d with Some v => v | None => default end)
  | _ => Raised AttributeError
  end.

(** [obj == "literal"] for a [str] literal: true for that very string only;
    comparing any other object with a [str] is false and never raises. *)
Definition eq_str (obj : value) (lit : string) : bool :=
  match obj with
  | VStr s => String.eqb s lit
  | _ => false
  end.

(** A byte [10xxxxxx] continues the UTF-8 sequence of the character before. *)
Definition is_continuation (c : ascii) : bool :=
  let n := nat_of_ascii c in (128 <=? n) && (n <? 192).

Definition head_is (p : ascii → bool) (s : string) : bool :=
  match s with
  | String c _ => p c
  | EmptyString => false
  end.

(** The characters of a [str], each as a one-character [str]. *)
Fixpoint characters (s : string) : list string :=
  match s with
  | EmptyString => []
  | String c rest =>
      match characters rest with
      | g :: gs =>
          if head_is is_continuation rest then String c g :: gs
          else String c EmptyString :: g :: gs
      | [] => [String c EmptyString]
      end
  end.

(** [iter(obj)]: a list yields its items, a [str] its characters, a [dict]
    its keys; the other objects are not iterable. *)
Definition iterate (obj : value) : result (list value) :=
  match obj with
  | VList items => Returned items
  | VStr s => Returned (VStr <$> characters s)
  | VDict d => Returned ((fun kv => VStr kv.1) <$> d)
  | _ => Raised TypeError
  end.

(** The items handed to [str.join] must all be [str]. *)
Fixpoint all_str (items : list value) : result (list string) :=
  match items with
  | [] => Returned []
  | VStr s :: rest => ss ← all_str rest; Returned (s :: ss)
  | _ :: _ => Raised TypeError
  end.

Fixpoint join_strings (sep : string) (ss : list string) : string :=
  match ss with
  | [] => ""
  | [s] => s
  | s :: rest => s +:+ sep +:+ join_strings sep rest
  end.

(** [sep.join(obj)]. *)
Definition join (sep : string) (obj : value) : result string :=
  items ← iterate obj;
  ss ← all_str items;
  Returned (join_strings sep ss).

(** [s.endswith(suffix)]. *)
Fixpoint endswith (s suffix : string) : bool :=
  if String.eqb s suffix then true
  else match s with
       | EmptyString => false
       | String _ s' => endswith s' suffix
       end.

End Py.

(** ** [json.loads]

    The decoder of the standard library, modelled on the grammar it accepts
    in its default (strict) mode: RFC 8259 plus the three literals [NaN],
    [Infinity] and [-Infinity].  The text is first cut into tokens, then a
    stack machine assembles the value; both passes are structural, so the
    decoder is total.  The interpreter's recursion limit and its cap on the
    digits of an integer literal are not modelled: on a text nested deeper
    than the first or holding an integer longer than the second the
    interpreter raises [RecursionError] or [ValueError], neither of which
    [parse_validator_output] catches.  The statements below are made for
    the texts within these limits. *)

Module Json.
Import Py.
Local Open Scope N_scope.

Inductive token : Type :=
| TLBrace | TRBrace | TLBracket | TRBracket | TComma | TColon
| TString (s : string)
| TAtom (v : value).

Definition code (c : ascii) : N := N_of_ascii c.

Definition is_ws (c : ascii) : bool :=
  let n := code c in (n =? 32) || (n =? 9) || (n =? 10) || (n =? 13).
Definition is_digit (c : ascii) : bool :=
  let n := code c in (48 <=? n) && (n <=? 57).
Definition is_letter (c : ascii) : bool :=
  let n := code c in ((65 <=? n) && (n <=? 90)) || ((97 <=? n) && (n <=? 122)).
(** The characters a number literal is made of. *)
Definition is_numchar (c : ascii) : bool :=
  let n := code c in
  is_digit c || (n =? 45) || (n =? 43) || (n =? 46) || (n =? 101) || (n =? 69).

Definition snoc (s : string) (c : ascii) : string := s +:+ String c EmptyString.

(** *** Number literals

    An optional minus sign; an integer part, either the digit 0 alone or a
    digit 1-9 followed by any digits; an optional fraction, a dot and at
    least one digit; an optional exponent, e or E, an optional sign and at
    least one digit.  With a fraction or an exponent the literal is a float. *)

Fixpoint all_digits (s : string) : bool :=
  match s with
  | EmptyString => true
  | String c rest => is_digit c && all_digits rest
  end.

Fixpoint span_digits (s : string) : string * string :=
  match s with
  | String c rest =>
      if is_digit c then let '(ds, r) := span_digits rest in (String c ds, r)
      else (EmptyString, s)
  | EmptyString => (EmptyString, EmptyString)
  end.

Definition valid_int_part (ds : string) : bool :=
  match ds with
  | EmptyString => false
  | String c EmptyString => true
  | String c _ => negb (code c =? 48)
  end.

Definition valid_exponent (s : string) : bool :=
  match s with
  | String c rest =>
      let digits := if (code c =? 43) || (code c =? 45) then rest else s in
      negb (String.eqb digits "") && all_digits digits
  | EmptyString => false
  end.

(** What follows the integer part: nothing, a fraction, an exponent, or a
    fraction and an exponent.  [Some true] when the literal is a float. *)
Definition number_tail (s : string) : option bool :=
  match s with
  | EmptyString => Some false
  | String c rest =>
      if code c =? 46 then
        let '(frac, r) := span_digits rest in
        if String.eqb frac "" then None
        else match r with
             | EmptyString => Some true
             | String e ex =>
                 if ((code e =? 101) || (code e =? 69)) && valid_exponent ex
                 then Some true else None
             end
      else if ((code c =? 101) || (code c =? 69)) && valid_exponent rest
      then Some true else None
  end.

Fixpoint decimal (acc : Z) (ds : string) : Z :=
  match ds with
  | EmptyString => acc
  | String c rest => decimal (10 * acc + Z.of_N (code c - 48))%Z rest
  end.

Definition number (lit : string) : option value :=
  let '(neg, body) :=
    match lit with
    | String c rest => if code c =? 45 then (true, rest) else (false, lit)
    | EmptyString => (false, lit)
    end in
  let '(ds, tail) := span_digits body in
  if valid_int_part ds then
    match number_tail tail with
    | Some true => Some (VFloat lit)
    | Some false => Some (VInt (if neg then - decimal 0 ds else decimal 0 ds)%Z)
    | None => None
    end
  else None.

Definition word (w : string) : option value :=
  if String.eqb w "null" then Some VNone
  else if String.eqb w "true" then Some (VBool true)
  else if String.eqb w "false" then Some (VBool false)
  else if String.eqb w "NaN" then Some (VFloat "NaN")
  else if String.eqb w "Infinity" then Some (VFloat "Infinity")
  else if String.eqb w "-Infinity" then Some (VFloat "-Infinity")
  else None.

(** *** String literals *)

Definition hex_digit (c : ascii) : option N :=
  let n := code c in
  if is_digit c then Some (n - 48)
  else if (97 <=? n) && (n <=? 102) then Some (n - 87)
  else if (65 <=? n) && (n <=? 70) then Some (n - 55)
  else None.

Definition hex4 (a b c d : ascii) : option N :=
  match hex_digit a, hex_digit b, hex_digit c, hex_digit d with
  | Some x, Some y, Some z, Some w => Some (((x * 16 + y) * 16 + z) * 16 + w)
  | _, _, _, _ => None
  end.

Definition byte (n : N) : ascii := ascii_of_N n.

(** UTF-8 of a code point (a lone surrogate is written as its three bytes). *)
Definition utf8 (n : N) : string :=
  if n <? 128 then String (byte n) EmptyString
  else if n <? 2048 then
    String (byte (192 + n / 64)) (String (byte (128 + n mod 64)) EmptyString)
  else if n <? 65536 then
    String (byte (224 + n / 4096))
      (String (byte (128 + (n / 64) mod 64))
         (String (byte (128 + n mod 64)) EmptyString))
  else
    String (byte (240 + n / 262144))
      (String (byte (128 + (n / 4096) mod 64))
         (String (byte (128 + (n / 64) mod 64))
            (String (byte (128 + n mod 64)) EmptyString))).

Definition is_high_surrogate (n : N) : bool := (55296 <=? n) && (n <=? 56319).
Definition is_low_surrogate (n : N) : bool := (56320 <=? n) && (n <=? 57343).

(** A [u] escape (a backslash, u and four hexadecimal digits) that names a high surrogate waits for the escape after
    it: a low surrogate right behind it makes one character of the two. *)
Definition flush (acc : string) (pending : option N) : string :=
  match pending with
  | Some h => acc +:+ utf8 h
  | None => acc
  end.

Definition add_escape (acc : string) (pending : option N) (u : N)
  : string * option N :=
  match pending with
  | Some h =>
      if is_low_surrogate u
      then (acc +:+ utf8 (65536 + (h - 55296) * 1024 + (u - 56320)), None)
      else if is_high_surrogate u then (acc +:+ utf8 h, Some u)
      else (acc +:+ utf8 h +:+ utf8 u, None)
  | None =>
      if is_high_surrogate u then (acc, Some u) else (acc +:+ utf8 u, None)
  end.

(** The character that the letter after a backslash stands for. *)
Definition simple_escape (c : ascii) : option ascii :=
  let n := code c in
  if n =? 34 then Some (byte 34)           (* quotation mark *)
  else if n =? 92 then Some (byte 92)      (* backslash *)
  else if n =? 47 then Some (byte 47)      (* slash *)
  else if n =? 98 then Some (byte 8)       (* b: backspace *)
  else if n =? 102 then Some (byte 12)     (* f: form feed *)
  else if n =? 110 then Some (byte 10)     (* n: line feed *)
  else if n =? 114 then Some (byte 13)     (* r: carriage return *)
  else if n =? 116 then Some (byte 9)      (* t: tab *)
  else None.

(** *** The tokenizer *)

Inductive mode : Type :=
| MTop
| MString (acc : string) (pending : option N)
| MNumber (acc : string)
| MWord (acc : string).

Definition cons_token (t : option token) (ts : option (list token))
  : option (list token) :=
  match t, ts with
  | Some t, Some ts => Some (t :: ts)
  | _, _ => None
  end.

Definition punctuation (c : ascii) : option token :=
  let n := code c in
  if n =? 123 then Some TLBrace
  else if n =? 125 then Some TRBrace
  else if n =? 91 then Some TLBracket
  else if n =? 93 then Some TRBracket
  else if n =? 44 then Some TComma
  else if n =? 58 then Some TColon
  else None.

(** A number or a word ends where the next character cannot continue it. *)
Fixpoint tokens (m : mode) (s : string) : option (list token) :=
  match s with
  | EmptyString =>
      match m with
      | MTop => Some []
      | _ => None
      end
  | String c rest =>
      let in_number acc :=
        if head_is is_numchar rest then tokens (MNumber (snoc acc c)) rest
        else cons_token (TAtom <$> number (snoc acc c)) (tokens MTop rest) in
      let in_word acc :=
        if head_is is_letter rest then tokens (MWord (snoc acc c)) rest
        else cons_token (TAtom <$> word (snoc acc c)) (tokens MTop rest) in
      match m with
      | MTop =>
          if is_ws c then tokens MTop rest
          else match punctuation c with
               | Some t => cons_token (Some t) (tokens MTop rest)
               | None =>
                   if code c =? 34 then tokens (MString EmptyString None) rest
                   else if is_digit c then in_number EmptyString
                   else if code c =? 45 then
                     if head_is (fun d => code d =? 73) rest
                     then in_word EmptyString else in_number EmptyString
                   else if is_letter c then in_word EmptyString
                   else None
               end
      | MNumber acc => in_number acc
      | MWord acc => in_word acc
      | MString acc pending =>
          if code c =? 34 then
            cons_token (Some (TString (flush acc pending))) (tokens MTop rest)
          else if code c =? 92 then
            match rest with
            | String e rest1 =>
                if code e =? 117 then
                  match rest1 with
                  | String h1 (String h2 (String h3 (String h4 rest2))) =>
                      match hex4 h1 h2 h3 h4 with
                      | Some u =>
                          let '(acc', pending') := add_escape acc pending u in
                          tokens (MString acc' pending') rest2
                      | None => None
                      end
                  | _ => None
                  end
                else
                  match simple_escape e with
                  | Some x => tokens (MString (snoc (flush acc pending) x) None) rest1
                  | None => None
                  end
            | EmptyString => None
            end
          else if code c <? 32 then None
          else tokens (MString (snoc (flush acc pending) c) None) rest
      end
  end.

(** *** The stack machine *)

Inductive frame : Type :=
| FArray (items : list value)
| FObject (d : pydict) (key : option string).

Inductive expect : Type :=
| EValue            (* a value *)
| EValueOrClose     (* just after an opening bracket *)
| EKey              (* a key, after a comma *)
| EKeyOrClose       (* just after an opening brace *)
| EColon
| ECommaOrClose
| EEnd (v : value). (* the document is complete *)

Definition state : Type := list frame * expect.

(** A finished value goes into the container on top of the stack.  Binding
    a key twice keeps the later value, as [dict] does. *)
Definition deliver (v : value) (stack : list frame) : option state :=
  match stack with
  | [] => Some ([], EEnd v)
  | FArray items :: below => Some (FArray (items ++ [v]) :: below, ECommaOrClose)
  | FObject d (Some k) :: below =>
      Some (FObject (dict_set k v d) None :: below, ECommaOrClose)
  | FObject _ None :: _ => None
  end.

Definition close_array (stack : list frame) : option state :=
  match stack with
  | FArray items :: below => deliver (VList items) below
  | _ => None
  end.

Definition close_object (stack : list frame) : option state :=
  match stack with
  | FObject d None :: below => deliver (VDict d) below
  | _ => None
  end.

Definition open_value (t : token) (stack : list frame) : option state :=
  match t with
  | TAtom v => deliver v stack
  | TString s => deliver (VStr s) stack
  | TLBracket => Some (FArray [] :: stack, EValueOrClose)
  | TLBrace => Some (FObject [] None :: stack, EKeyOrClose)
  | _ => None
  end.

Definition open_key (t : token) (stack : list frame) : option state :=
  match t, stack with
  | TString k, FObject d None :: below => Some (FObject d (Some k) :: below, EColon)
  | _, _ => None
  end.

Definition step (st : state) (t : token) : option state :=
  let '(stack, e) := st in
  match e with
  | EValue => open_value t stack
  | EValueOrClose =>
      match t with
      | TRBracket => close_array stack
      | _ => open_value t stack
      end
  | EKey => open_key t stack
  | EKeyOrClose =>
      match t with
      | TRBrace => close_object stack
      | _ => open_key t stack
      end
  | EColon =>
      match t with
      | TColon => Some (stack, EValue)
      | _ => None
      end
  | ECommaOrClose =>
      match t, stack with
      | TComma, FArray _ :: _ => Some (stack, EValue)
      | TComma, FObject _ _ :: _ => Some (stack, EKey)
      | TRBracket, _ => close_array stack
      | TRBrace, _ => close_object stack
      | _, _ => None
      end
  | EEnd _ => None
  end.

Fixpoint run (st : state) (ts : list token) : option value :=
  match ts with
  | [] =>
      match st with
      | ([], EEnd v) => Some v
      | _ => None
      end
  | t :: ts' =>
      match step st t with
      | Some st' => run st' ts'
      | None => None
      end
  end.

(** [json.loads(text)]: the decoded object, or [JSONDecodeError]. *)
Definition loads (text : string) : result value :=
  match tokens MTop text with
  | Some ts =>
      match run ([], EValue) ts with
      | Some v => Returned v
      | None => Raised JSONDecodeError
      end
  | None => Raised JSONDecodeError
  end.

End Json.

(** ** The part of [pandas] the module uses

    A frame is its ordered column labels and its rows; with
    [ignore_index=True] the row index is always 0, 1, 2, ... and needs no
    field of its own.

    The model is exact for the columns pandas keeps as objects: strings,
    [None], sequences and mappings.  For a column that holds numbers or
    booleans pandas chooses one dtype and converts its cells (an [int]
    stored next to a [float] becomes that float); this conversion is not
    modelled, and the statements below that give the values of cells are
    made for columns of strings. *)

Module Pandas.
Import Py.

(** A cell holds a Python object.  Where a row has no value under a column
    pandas stores the float "not a number", the same object that the JSON
    literal [NaN] decodes to. *)
Abbreviation cell := value.

Definition nan : cell := VFloat "NaN".

Record DataFrame : Type := { columns : list string; rows : list (list cell) }.

(** [pd.DataFrame()]: no columns and no rows. *)
Definition empty : DataFrame := {| columns := []; rows := [] |}.

(** [pd.DataFrame([record])]: one column per key, in key order; one row. *)
Definition of_record (record : pydict) : DataFrame :=
  {| columns := record.*1; rows := [record.*2] |}.

Fixpoint cell_at (col : string) (cols : list string) (row : list cell) : cell :=
  match cols, row with
  | c :: cols', x :: row' => if String.eqb col c then x else cell_at col cols' row'
  | _, _ => nan
  end.

Definition reindex (cols : list string) (df : DataFrame) : list (list cell) :=
  (λ row, (λ col, cell_at col (columns df) row) <$> cols) <$> rows df.

Definition has_column (cols : list string) (c : string) : bool :=
  existsb (String.eqb c) cols.

(** [pd.concat([a, b], ignore_index=True)]: the columns of [a], then those
    of [b] that [a] lacks; the rows of [a], then the rows of [b]. *)
Definition concat (a b : DataFrame) : DataFrame :=
  let cols :=
    columns a ++ List.filter (λ c, negb (has_column (columns a) c)) (columns b) in
  {| columns := cols; rows := reindex cols a ++ reindex cols b |}.

End Pandas.

(** ** The host's file system, as the module sees it *)

Module Host.

(** [glob.glob(pattern, recursive=...)] and [os.path.isfile(path)].

    [glob_glob] gives the paths found.  The library function raises on a
    pattern it cannot hand to the operating system: [ValueError] on an
    embedded NUL character, [UnicodeEncodeError] on a lone surrogate.  Such
    patterns are outside this interface; the statements on directory trees
    exclude them by name ([Spec.plain_path]). *)
Record host : Type := {
  glob_glob : string → bool → list string;
  os_path_isfile : string → bool
}.

Definition is_slash (c : ascii) : bool := Ascii.eqb c "/"%char.

(** [s.split("/")]. *)
Fixpoint split_slash (s : string) : list string :=
  match s with
  | EmptyString => [EmptyString]
  | String c rest =>
      match split_slash rest with
      | seg :: segs =>
          if is_slash c then EmptyString :: seg :: segs else String c seg :: segs
      | [] => [String c EmptyString]
      end
  end.

Definition is_part (seg : string) : bool :=
  negb (String.eqb seg "") && negb (String.eqb seg ".").

(** [pathlib.PurePath(p).name] on a POSIX host: the last component of the
    path once empty components and "." components are left out, or the
    empty string when nothing remains. *)
Definition PurePath_name (p : string) : string :=
  default "" (last (List.filter is_part (split_slash p))).

End Host.

(** ** [cubids/validator.py] *)

Module Validator.
Import Py Pandas Host.

Definition build_validator_call (path : string) (ignore_headers : bool)
  : list string :=
  let command := ["bids-validator"; path; "--verbose"; "--json"] in
  if ignore_headers then command ++ ["--ignoreNiftiHeaders"] else command.

Definition newline : string := String (ascii_of_nat 10) EmptyString.

(** The body of the [for sub in subjects] loop. *)
Definition add_subject (h : host) (root_files : list string)
    (subjects_dict : gmap string (list string)) (sub : string)
  : gmap string (list string) :=
  let sub_label := PurePath_name sub in
  let files := List.filter (os_path_isfile h) (glob_glob h (sub +:+ "**") true) in
  let files := files ++ root_files in
  <[sub_label := files]> subjects_dict.

(** The manifest is kept as a finite map from subject label to file list:
    assigning to a label twice keeps the later list, as [dict] does; the
    order of the keys plays no part in the properties below. *)
Definition build_subject_paths (h : host) (bids_dir : string)
  : result (gmap string (list string)) :=
  let bids_dir := if endswith bids_dir "/" then bids_dir else bids_dir +:+ "/" in
  let root_files :=
    List.filter (os_path_isfile h) (glob_glob h (bids_dir +:+ "*") false) in
  let bids_dir := bids_dir +:+ "sub-*/" in
  let subjects := glob_glob h bids_dir false in
  if length subjects <? 1 then
    Raised (ValueError
      ("Couldn't find any subjects in the specified directory:" +:+ newline
       +:+ bids_dir))
  else
    Returned (foldl (add_subject h root_files) ∅ subjects).

Definition parse_issue (issue : value) : result pydict :=
  code ← get issue "code" (VStr "");
  severity ← get issue "severity" (VStr "");
  location ← get issue "location" (VStr "");
  affects ← get issue "affects" (VList []);
  affects ← join ", " affects;
  rule ← get issue "rule" (VStr "");
  Returned [("code", code); ("severity", severity); ("location", location);
            ("affects", VStr affects); ("rule", rule)].

(** The [for issue in issues_list] loop, started with the frame [df]. *)
Fixpoint for_issue (df : DataFrame) (issues_list : list value)
  : result DataFrame :=
  match issues_list with
  | [] => Returned df
  | issue :: rest =>
      severity ← get issue "severity" VNone;
      if eq_str severity "error" then
        parsed ← parse_issue issue;
        let parsed_df := of_record parsed in
        for_issue (concat df parsed_df) rest
      else
        severity ← get issue "severity" VNone;
        if eq_str severity "warning" then
          parsed ← parse_issue issue;
          let parsed_df := of_record parsed in
          for_issue (concat df parsed_df) rest
        else for_issue df rest
  end.

(** The statements of the [try] block after [json.loads]. *)
Definition flatten (data : value) : result DataFrame :=
  issues ← get data "issues" (VDict []);
  let df := empty in
  issues_list ← get issues "issues" (VList []);
  items ← iterate issues_list;
  for_issue df items.

(** A printed line: the text of the f-string before [{e}], and [e]. *)
Definition line : Type := string * exn.

(** The function returns its printed lines and either a frame, [None] (when
    the [except] clause ran and the function fell off its end), or the
    exception that left it. *)
Definition parse_validator_output (output : string)
  : list line * result (option DataFrame) :=
  match (data ← Json.loads output; flatten data) with
  | Returned df => ([], Returned (Some df))
  | Raised JSONDecodeError =>
      ([("Error parsing JSON: ", JSONDecodeError)], Returned None)
  | Raised e => ([], Raised e)
  end.

Definition get_val_dictionary (_ : unit) : pydict :=
  [("location", VDict [("Description", VStr "File with the validation issue.")]);
   ("code", VDict [("Description", VStr "Code of the validation issue.")]);
   ("subCode",
    VDict [("Description", VStr "Subcode providing additional issue details.")]);
   ("severity",
    VDict [("Description", VStr "Severity of the issue (e.g., warning, error).")]);
   ("rule",
    VDict [("Description", VStr "Validation rule that triggered the issue.")])].

End Validator.

(** ** A host made of a directory tree

    Directories, regular files and special files (devices, sockets); no
    symbolic links.  Entry names are non-empty, hold no slash and are
    neither "." nor "..".  The working directory is the root of the tree.
    The listing of a directory gives its entries in the order of the tree.
    [glob] follows the standard library's [glob.py] with the default
    [include_hidden=False]; its pattern matching covers the wildcards "*"
    (any run of characters) and "?" (one character, with all its bytes).
    Character classes are not modelled, a bracket being taken as itself:
    the model is that of [glob.py] for the patterns without a bracket. *)

Module TreeFS.
Import Py Host.

Inductive node : Type :=
| File
| Special
| Dir (entries : list (string * node)).

Fixpoint child (name : string) (entries : list (string * node)) : option node :=
  match entries with
  | [] => None
  | (n, x) :: rest => if String.eqb name n then Some x else child name rest
  end.

(** Walk the components of a path.  [above] holds the directories between
    the root and the current one.  A component after a non-directory fails,
    and so does a trailing slash after one. *)
Fixpoint walk (above : list node) (cur : node) (comps : list string)
  : option node :=
  match comps with
  | [] => Some cur
  | c :: rest =>
      match cur with
      | Dir entries =>
          if String.eqb c "" || String.eqb c "." then walk above cur rest
          else if String.eqb c ".." then
            match above with
            | [] => walk [] cur rest
            | parent :: above' => walk above' parent rest
            end
          else
            match child c entries with
            | Some x => walk (cur :: above) x rest
            | None => None
            end
      | _ => None
      end
  end.

Section Tree.
Variable root : node.

(** [os.stat]: the empty path names nothing. *)
Definition stat (path : string) : option node :=
  if String.eqb path "" then None else walk [] root (split_slash path).

Definition lexists (path : string) : bool :=
  match stat path with Some _ => true | None => false end.
Definition isdir (path : string) : bool :=
  match stat path with Some (Dir _) => true | _ => false end.
Definition isfile (path : string) : bool :=
  match stat path with Some File => true | _ => false end.

Definition is_dir_node (x : node) : bool :=
  match x with Dir _ => true | _ => false end.

(** [_listdir]: the entry names, of the directories only when [dironly];
    the empty name lists the working directory; nothing on an error of the
    operating system.  (A name with a NUL character or a lone surrogate
    never reaches the operating system: [os.scandir] raises on it, see
    [Host.host].) *)
Definition listdir (dirname : string) (dironly : bool) : list string :=
  match (if String.eqb dirname "" then Some root else stat dirname) with
  | Some (Dir entries) =>
      (List.filter (λ e, negb dironly || is_dir_node e.2) entries).*1
  | _ => []
  end.

(** [os.path.split]. *)
Fixpoint cut_last_slash (p : string) : string * string :=
  match p with
  | EmptyString => (EmptyString, EmptyString)
  | String c rest =>
      let '(h, t) := cut_last_slash rest in
      if String.eqb h "" then
        if is_slash c then (String c EmptyString, t) else (EmptyString, String c t)
      else (String c h, t)
  end.

Fixpoint rstrip_slash (s : string) : string :=
  match s with
  | EmptyString => EmptyString
  | String c rest =>
      let r := rstrip_slash rest in
      if String.eqb r "" && is_slash c then EmptyString else String c r
  end.

Definition os_path_split (p : string) : string * string :=
  let '(head, tail) := cut_last_slash p in
  (if String.eqb (rstrip_slash head) "" then head else rstrip_slash head, tail).

(** [os.path.join] of two paths. *)
Definition os_path_join (a b : string) : string :=
  if head_is is_slash b then b
  else if String.eqb a "" || endswith a "/" then a +:+ b
  else a +:+ "/" +:+ b.

(** [_join]. *)
Definition join_ (dirname basename : string) : string :=
  if String.eqb dirname "" || String.eqb basename "" then
    (if String.eqb dirname "" then basename else dirname)
  else os_path_join dirname basename.

Definition is_magic (c : ascii) : bool :=
  Ascii.eqb c "*"%char || Ascii.eqb c "?"%char || Ascii.eqb c "["%char.

Fixpoint has_magic (s : string) : bool :=
  match s with
  | EmptyString => false
  | String c rest => is_magic c || has_magic rest
  end.

Definition ishidden (name : string) : bool := head_is (Ascii.eqb "."%char) name.

Definition isrecursive (pattern : string) : bool := String.eqb pattern "**".

(** The rest of a name after the bytes that continue its first character. *)
Fixpoint skip_continuation (s : string) : string :=
  match s with
  | String c rest => if is_continuation c then skip_continuation rest else s
  | EmptyString => s
  end.

(** [fnmatch]: the whole name against the pattern. *)
Fixpoint fnmatch (pattern name : string) : bool :=
  match pattern with
  | EmptyString => String.eqb name ""
  | String p pattern' =>
      if Ascii.eqb p "*"%char then
        (fix star (name : string) : bool :=
           fnmatch pattern' name ||
           match name with
           | EmptyString => false
           | String _ name' => star name'
           end) name
      else
        match name with
        | EmptyString => false
        | String c name' =>
            if Ascii.eqb p "?"%char then fnmatch pattern' (skip_continuation name')
            else Ascii.eqb p c && fnmatch pattern' name'
        end
  end.

(** [_glob1]: the entries of a directory that match a pattern; a pattern
    that does not start with a dot matches no name that starts with one. *)
Definition glob1 (dirname pattern : string) (dironly : bool) : list string :=
  let names := listdir dirname dironly in
  let names :=
    if ishidden pattern then names else List.filter (λ x, negb (ishidden x)) names in
  List.filter (fnmatch pattern) names.

(** [_glob0]: a literal last component. *)
Definition glob0 (dirname basename : string) (dironly : bool) : list string :=
  if negb (String.eqb basename "") then
    if lexists (join_ dirname basename) then [basename] else []
  else if isdir dirname then [basename] else [].

(** [_rlistdir], on the directory's node: every entry below it that is
    reached through names that do not start with a dot. *)
Fixpoint rlistdir (dironly : bool) (x : node) : list string :=
  match x with
  | Dir entries =>
      (fix each (es : list (string * node)) : list string :=
         match es with
         | [] => []
         | (name, y) :: es' =>
             (if (negb dironly || is_dir_node y) && negb (ishidden name)
              then name :: (join_ name <$> rlistdir dironly y)
              else [])
             ++ each es'
         end) entries
  | _ => []
  end.

(** [_glob2]: the pattern "**". *)
Definition glob2 (dirname pattern : string) (dironly : bool) : list string :=
  (if String.eqb dirname "" || isdir dirname then [EmptyString] else [])
  ++ match (if String.eqb dirname "" then Some root else stat dirname) with
     | Some x => rlistdir dironly x
     | None => []
     end.

(** [_iglob].  Each nested call is on a strictly shorter path, so a fuel of
    the length of the pattern plus one is never used up (lemma
    [iglob_fuel]). *)
Fixpoint iglob (fuel : nat) (pathname : string) (recursive dironly : bool)
  : list string :=
  match fuel with
  | 0 => []
  | S fuel' =>
      let '(dirname, basename) := os_path_split pathname in
      if negb (has_magic pathname) then
        if negb (String.eqb basename "") then
          if lexists pathname then [pathname] else []
        else if isdir dirname then [pathname] else []
      else if String.eqb dirname "" then
        if recursive && isrecursive basename then glob2 "" basename dironly
        else glob1 "" basename dironly
      else
        let dirs :=
          if negb (String.eqb dirname pathname) && has_magic dirname
          then iglob fuel' dirname recursive true
          else [dirname] in
        let glob_in_dir :=
          if has_magic basename then
            if recursive && isrecursive basename then glob2 else glob1
          else glob0 in
        dirname ← dirs;
        os_path_join dirname <$> glob_in_dir dirname basename dironly
  end.

Definition first2 (s : string) : string :=
  match s with
  | String a (String b _) => String a (String b EmptyString)
  | _ => s
  end.

(** [glob.glob]: a leading empty match of an empty or "**" pattern is
    dropped. *)
Definition glob (pathname : string) (recursive : bool) : list string :=
  let found := iglob (S (String.length pathname)) pathname recursive false in
  if String.eqb pathname "" || (recursive && isrecursive (first2 pathname)) then
    match found with
    | s :: rest => if String.eqb s "" then rest else found
    | [] => []
    end
  else found.

Definition tree_host : host :=
  {| glob_glob := glob; os_path_isfile := isfile |}.

End Tree.

End TreeFS.

(** ** Vocabulary of the specification *)

Module Spec.
Import Py Pandas Host Validator.

(** The value of a field of a mapping, or a default when it is absent. *)
Definition field (k : string) (d : pydict) (default_value : value) : value :=
  default default_value (dict_lookup k d).

(** A decoded report with its issue sequence: a mapping whose "issues"
    entry (an empty mapping when absent) is a mapping whose "issues" entry
    (an empty sequence when absent) is the sequence of the issue mappings. *)
Definition report_issues (data : value) (issues : list pydict) : Prop :=
  ∃ top inner,
    data = VDict top ∧
    field "issues" top (VDict []) = VDict inner ∧
    field "issues" inner (VList []) = VList (VDict <$> issues).

(** An issue is retained when its severity is "error" or "warning". *)
Definition retained (issue : pydict) : bool :=
  eq_str (field "severity" issue VNone) "error"
  || eq_str (field "severity" issue VNone) "warning".

(** The "affects" entry of an issue is absent or a sequence of strings. *)
Definition affects_strings (issue : pydict) (ss : list string) : Prop :=
  field "affects" issue (VList []) = VList (VStr <$> ss).

Definition issue_columns : list string :=
  ["code"; "severity"; "location"; "affects"; "rule"].

(** The table with one row per record, in order; without a record it has
    no column either. *)
Definition table_of (records : list pydict) : DataFrame :=
  {| columns := match records with [] => [] | _ :: _ => issue_columns end;
     rows := (λ r : pydict, r.*2) <$> records |}.

(** The frame after one more record: the step of the loop for a retained
    issue. *)
Definition append_record (df : DataFrame) (record : pydict) : DataFrame :=
  concat df (of_record record).

(** A record of the five fields. *)
Definition five_fields (record : pydict) : Prop :=
  ∃ c s l a r : value,
    record = [("code", c); ("severity", s); ("location", l); ("affects", a);
              ("rule", r)].

(** The normalization of each issue gives the record next to it. *)
Definition normalize_all (issues records : list pydict) : Prop :=
  Forall2 (λ issue record, parse_issue (VDict issue) = Returned record)
    issues records.

Definition not_decode_error {A : Type} (r : result A) : Prop :=
  r ≠ Raised JSONDecodeError.

(** The directory the partitioner searches, with its closing separator. *)
Definition normalized (bids_dir : string) : string :=
  if endswith bids_dir "/" then bids_dir else bids_dir +:+ "/".

Definition search_pattern (bids_dir : string) : string :=
  normalized bids_dir +:+ "sub-*/".

(** The subject directories found, the regular files listed below one of
    them, and the regular files listed directly under the root. *)
Definition subjects_of (h : host) (bids_dir : string) : list string :=
  glob_glob h (search_pattern bids_dir) false.

Definition subject_files (h : host) (sub : string) : list string :=
  List.filter (os_path_isfile h) (glob_glob h (sub +:+ "**") true).

Definition listed_root_files (h : host) (bids_dir : string) : list string :=
  List.filter (os_path_isfile h) (glob_glob h (normalized bids_dir +:+ "*") false).

Fixpoint has_slash (s : string) : bool :=
  match s with
  | EmptyString => false
  | String c rest => is_slash c || has_slash rest
  end.

(** A path segment that names a directory entry. *)
Definition is_segment (label : string) : Prop :=
  has_slash label = false ∧ is_part label = true.

(** The names of the regular files that are direct children of a directory
    of a tree, whatever their names. *)
Definition regular_children (root : TreeFS.node) (dirname : string)
  : list string :=
  match TreeFS.stat root dirname with
  | Some (TreeFS.Dir entries) =>
      (List.filter
         (λ e : string * TreeFS.node,
            match e.2 with TreeFS.File => true | _ => false end) entries).*1
  | _ => []
  end.

(** The directory part that [os.path.split] gives for a child of the
    directory path [D], which ends with a separator. *)
Definition parent_path (D : string) : string :=
  if String.eqb (TreeFS.rstrip_slash D) "" then D else TreeFS.rstrip_slash D.

Fixpoint all_slashes (s : string) : bool :=
  match s with
  | EmptyString => true
  | String c rest => is_slash c && all_slashes rest
  end.

(** The name of a directory entry: a segment other than "..". *)
Definition entry_name (name : string) : Prop :=
  is_segment name ∧ name ≠ "..".

(** The entries of a directory have distinct, well-formed names. *)
Definition entries_ok (entries : list (string * TreeFS.node)) : Prop :=
  NoDup entries.*1 ∧ Forall entry_name entries.*1.

Definition child_directories (entries : list (string * TreeFS.node))
  : list string :=
  (List.filter (λ e : string * TreeFS.node, TreeFS.is_dir_node e.2) entries).*1.

(** The sub-directories whose names match the subject pattern. *)
Definition subject_directories (entries : list (string * TreeFS.node))
  : list string :=
  List.filter (TreeFS.fnmatch "sub-*") (child_directories entries).

(** The regular files whose names do not start with a dot. *)
Definition visible_files (entries : list (string * TreeFS.node))
  : list string :=
  (List.filter
     (λ e : string * TreeFS.node,
        match e.2 with TreeFS.File => true | _ => false end
        && negb (TreeFS.ishidden e.1)) entries).*1.

(** A root path that [glob] takes literally and that a host whose
    file-system encoding is UTF-8 accepts: it holds no wildcard character,
    no NUL character and no surrogate code point (the byte 237 followed by
    a byte of 160 or more begins one). *)
Fixpoint has_nul (s : string) : bool :=
  match s with
  | EmptyString => false
  | String c rest => Ascii.eqb c zero || has_nul rest
  end.

Fixpoint has_surrogate (s : string) : bool :=
  match s with
  | EmptyString => false
  | String c rest =>
      (Ascii.eqb c (ascii_of_nat 237)
       && head_is (λ b, 160 <=? nat_of_ascii b) rest)
      || has_surrogate rest
  end.

Definition plain_path (s : string) : bool :=
  negb (TreeFS.has_magic s) && negb (has_nul s) && negb (has_surrogate s).

(** Kinds of objects: a string, a mapping, an object [str.join] accepts (a
    sequence of strings, a string, a mapping), an object that cannot be
    iterated. *)
Definition is_str (v : value) : bool :=
  match v with VStr _ => true | _ => false end.

Definition is_mapping (v : value) : bool :=
  match v with VDict _ => true | _ => false end.

Definition joinable (v : value) : bool :=
  match v with
  | VList items => forallb is_str items
  | VStr _ | VDict _ => true
  | _ => false
  end.

Definition not_iterable (v : value) : bool :=
  match v with
  | VNone | VBool _ | VInt _ | VFloat _ => true
  | _ => false
  end.

(** The five-field record with the given entries. *)
Definition record_of (code severity location : value) (affects : string)
    (rule : value) : pydict :=
  [("code", code); ("severity", severity); ("location", location);
   ("affects", VStr affects); ("rule", rule)].

(** An issue as the validator writes it: the entries code, location and
    rule are strings where present, and the entry affects is a sequence of
    strings where present. *)
Definition typed_issue (issue : pydict) : Prop :=
  is_str (field "code" issue (VStr "")) = true ∧
  is_str (field "location" issue (VStr "")) = true ∧
  is_str (field "rule" issue (VStr "")) = true ∧
  ∃ ss, affects_strings issue ss.

(** The record of an issue: its entries, the empty string standing for an
    absent one, and the strings of affects joined with a comma and a
    space. *)
Definition normalized_record (issue record : pydict) : Prop :=
  ∃ ss,
    affects_strings issue ss ∧
    record =
      record_of (field "code" issue (VStr "")) (field "severity" issue (VStr ""))
        (field "location" issue (VStr "")) (join_strings ", " ss)
        (field "rule" issue (VStr "")).

(** JSON texts are written below with an apostrophe where the text has a
    quotation mark. *)
Fixpoint json_text (s : string) : string :=
  match s with
  | EmptyString => EmptyString
  | String c rest =>
      String (if Ascii.eqb c "'"%char then ascii_of_nat 34 else c) (json_text rest)
  end.

End Spec.

(** ** Sample inputs *)

Module Samples.
Import Py Spec TreeFS.

(** A report cut off in the middle. *)
Definition truncated_report : string := json_text "{'issues': {'issues': [{'code': ".

(** The four issues of the specification's example, and one more top-level
    key that the flattener ignores. *)
Definition four_issues : string :=
  json_text
    "{'issues': {'issues': [
       {'code': 'A', 'severity': 'error', 'location': '/f1', 'affects': ['a', 'b', 'c'], 'rule': 'r1'},
       {'code': 'B', 'severity': 'warning', 'location': '/f2'},
       {'code': 'C', 'severity': 'info', 'location': '/f3', 'affects': ['x']},
       {'code': 'D', 'severity': 'error', 'affects': []}
     ]}, 'summary': {'totalFiles': 12}}".

(** The four issue mappings of that report, as they are decoded. *)
Definition four_issue_mappings : list pydict :=
  [[("code", VStr "A"); ("severity", VStr "error"); ("location", VStr "/f1");
    ("affects", VList [VStr "a"; VStr "b"; VStr "c"]); ("rule", VStr "r1")];
   [("code", VStr "B"); ("severity", VStr "warning"); ("location", VStr "/f2")];
   [("code", VStr "C"); ("severity", VStr "info"); ("location", VStr "/f3");
    ("affects", VList [VStr "x"])];
   [("code", VStr "D"); ("severity", VStr "error"); ("affects", VList [])]].

(** A report whose issues are all informational. *)
Definition only_info : string :=
  json_text "{'issues': {'issues': [{'code': 'C', 'severity': 'info'}, {'code': 'E'}]}}".

(** A retained issue whose "affects" entry is a sequence of numbers. *)
Definition numeric_affects : string :=
  json_text "{'issues': {'issues': [{'severity': 'error', 'affects': [1, 2]}]}}".

(** A dataset with two subjects, two visible root-level files and the
    root-level file ".bidsignore". *)
Definition dataset : node :=
  Dir [("ds", Dir [
    ("dataset_description.json", File);
    (".bidsignore", File);
    ("README", File);
    ("sub-01", Dir [("anat", Dir [("sub-01_T1w.nii.gz", File);
                                  ("sub-01_T1w.json", File)]);
                    ("func", Dir [])]);
    ("sub-02", Dir [("sub-02_scans.tsv", File)]);
    ("derivatives", Dir [("notes.txt", File)])])].

(** Two datasets side by side, each with a subject of the same name. *)
Definition two_datasets : node :=
  Dir [("d1", Dir [("README", File);
                   ("sub-01", Dir [("first.json", File)])]);
       ("d2", Dir [("sub-01", Dir [("second.json", File)])])].

(** A warning, then an error whose "affects" entry is a number. *)
Definition affects_is_a_number : string :=
  json_text
    "{'issues': {'issues': [
       {'code': 'A', 'severity': 'warning', 'location': '/f1'},
       {'code': 'B', 'severity': 'error', 'affects': 7}
     ]}}".

(** A directory whose own name is "d?", without a subject, next to a
    dataset with one subject. *)
Definition question_mark_directory : node :=
  Dir [("d?", Dir [("notes.txt", File)]);
       ("d1", Dir [("README", File);
                   ("sub-01", Dir [("scan.json", File)])])].

(** A report with one error, a report with one warning, and the report
    with the error followed by the warning. *)
Definition one_error : string :=
  json_text "{'issues': {'issues': [{'severity': 'error', 'code': 'A'}]}}".

Definition one_warning : string :=
  json_text "{'issues': {'issues': [{'severity': 'warning', 'code': 'B'}]}}".

Definition error_then_warning : string :=
  json_text
    "{'issues': {'issues': [{'severity': 'error', 'code': 'A'},
                            {'severity': 'warning', 'code': 'B'}]}}".

(** An issue sequence that holds a number after a well-formed issue. *)
Definition number_among_issues : string :=
  json_text "{'issues': {'issues': [{'severity': 'error'}, 5]}}".

End Samples.

(** * Properties *)

Import Py Pandas Host Validator Spec.

(** ** Sequencing and the built-ins *)

Lemma bind_returned {A B : Type} (a : A) (k : A → result B) :
  (Returned a ≫= k) = k a.
Proof. reflexivity. Qed.

Lemma bind_raised {A B : Type} (e : exn) (k : A → result B) :
  (Raised e ≫= k) = Raised e.
Proof. reflexivity. Qed.

Lemma bind_inv {A B : Type} (r : result A) (k : A → result B) (b : B) :
  (r ≫= k) = Returned b → ∃ a, r = Returned a ∧ k a = Returned b.
Proof. destruct r as [a|e]; [eauto | discriminate]. Qed.

Lemma get_dict (d : pydict) (k : string) (dv : value) :
  get (VDict d) k dv = Returned (field k d dv).
Proof. reflexivity. Qed.

Lemma get_inv (obj : value) (k : string) (dv v : value) :
  get obj k dv = Returned v → ∃ d, obj = VDict d ∧ v = field k d dv.
Proof.
  destruct obj; simpl; try discriminate.
  intros [= <-]. eauto.
Qed.

Lemma all_str_strings (ss : list string) :
  all_str (VStr <$> ss) = Returned ss.
Proof.
  induction ss as [|s ss IH]; [reflexivity|].
  csimpl. rewrite IH. reflexivity.
Qed.

Lemma join_list_of_strings (sep : string) (ss : list string) :
  join sep (VList (VStr <$> ss)) = Returned (join_strings sep ss).
Proof.
  unfold join.
  change (iterate (VList (VStr <$> ss))) with (Returned (VStr <$> ss)).
  rewrite bind_returned, all_str_strings. reflexivity.
Qed.

(** None of the statements after [json.loads] raises the decoder's error. *)

Lemma get_not_decode_error (obj : value) (k : string) (dv : value) :
  not_decode_error (get obj k dv).
Proof. destruct obj; discriminate. Qed.

Lemma all_str_not_decode_error (items : list value) :
  not_decode_error (all_str items).
Proof.
  induction items as [|x items IH]; [discriminate|].
  destruct x; simpl; try discriminate.
  destruct (all_str items) as [ss|e]; simpl; [discriminate|].
  intros [= ->]. by apply IH.
Qed.

Lemma join_not_decode_error (sep : string) (obj : value) :
  not_decode_error (join sep obj).
Proof.
  unfold join, not_decode_error.
  destruct obj; simpl; try discriminate;
    match goal with
    | |- (all_str ?l ≫= _) ≠ _ =>
        pose proof (all_str_not_decode_error l) as H;
        destruct (all_str l); simpl; [discriminate | congruence]
    end.
Qed.

(** ** The decoder on sample texts *)

Example loads_nested :
  Json.loads (json_text "{'a': {'b': [{'c': 'd'}, 2]}, 'e': 'f'}")
  = Returned (VDict [("a", VDict [("b", VList [VDict [("c", VStr "d")]; VInt 2])]);
                     ("e", VStr "f")]).
Proof. vm_compute. reflexivity. Qed.

Example loads_scalars :
  Json.loads (json_text " [1, -2, 3.5, 1e3, -0, NaN, -Infinity, true, false, null, ''] ")
  = Returned (VList [VInt 1; VInt (-2); VFloat "3.5"; VFloat "1e3"; VInt 0;
                     VFloat "NaN"; VFloat "-Infinity"; VBool true; VBool false;
                     VNone; VStr ""]).
Proof. vm_compute. reflexivity. Qed.

(** The later binding of a repeated key wins. *)
Example loads_repeated_key :
  Json.loads (json_text "{'issues': {}, 'x': 1, 'issues': 3}")
  = Returned (VDict [("issues", VInt 3); ("x", VInt 1)]).
Proof. vm_compute. reflexivity. Qed.

(** Escapes in a string: "e" is the letter e, "\n" a line feed. *)
Example loads_escapes :
  Json.loads (json_text "'error\n'")
  = Returned (VStr ("error" +:+ String (ascii_of_nat 10) EmptyString)).
Proof. vm_compute. reflexivity. Qed.

Example loads_rejects :
  Forall (λ text, Json.loads (json_text text) = Raised JSONDecodeError)
    [""; "{'issues': "; "[1,]"; "{'a': 1,}"; "{a: 1}"; "[1 2]"; "01"; "1.";
     "-"; "+1"; "nul"; "nullx"; "{} {}"; "'abc"; "'\x'"; "'\u12'"; "]"].
Proof. repeat constructor. Qed.

Lemma loads_raises_decode_error_only (text : string) (e : exn) :
  Json.loads text = Raised e → e = JSONDecodeError.
Proof.
  unfold Json.loads. destruct (Json.tokens _ _) as [ts|]; [|by intros [= <-]].
  destruct (Json.run _ _); [discriminate | by intros [= <-]].
Qed.

(** ** [parse_issue] *)

Lemma parse_issue_dict (d : pydict) :
  parse_issue (VDict d) =
    (affects ← join ", " (field "affects" d (VList []));
     Returned [("code", field "code" d (VStr ""));
               ("severity", field "severity" d (VStr ""));
               ("location", field "location" d (VStr ""));
               ("affects", VStr affects);
               ("rule", field "rule" d (VStr ""))]).
Proof. reflexivity. Qed.

Lemma parse_issue_inv (issue : value) (record : pydict) :
  parse_issue issue = Returned record →
  ∃ d affects,
    issue = VDict d ∧
    join ", " (field "affects" d (VList [])) = Returned affects ∧
    record = [("code", field "code" d (VStr ""));
              ("severity", field "severity" d (VStr ""));
              ("location", field "location" d (VStr ""));
              ("affects", VStr affects);
              ("rule", field "rule" d (VStr ""))].
Proof.
  destruct issue; try discriminate.
  rewrite parse_issue_dict. intros H.
  apply bind_inv in H as (affects & Hj & [= <-]). eauto.
Qed.

Lemma parse_issue_not_decode_error (issue : value) :
  not_decode_error (parse_issue issue).
Proof.
  destruct issue; try discriminate.
  rewrite parse_issue_dict.
  pose proof (join_not_decode_error ", " (field "affects" bindings (VList []))) as H.
  destruct (join _ _); simpl; [discriminate|].
  intros [= ->]. by apply H.
Qed.

(** C4, as amended.  For every issue mapping whose "affects" entry is
    absent or a sequence of strings, [parse_issue] returns one record of
    the five fields code, severity, location, affects, rule, in this order:
    code, severity, location and rule are the input's entries, or the empty
    string where the entry is absent, and affects is the strings joined
    with a comma and a space (the empty string when the entry is absent). *)
Theorem parse_issue_normalizes (issue : pydict) (ss : list string) :
  affects_strings issue ss →
  parse_issue (VDict issue) =
    Returned [("code", field "code" issue (VStr ""));
              ("severity", field "severity" issue (VStr ""));
              ("location", field "location" issue (VStr ""));
              ("affects", VStr (join_strings ", " ss));
              ("rule", field "rule" issue (VStr ""))].
Proof.
  intros Haff. rewrite parse_issue_dict, Haff, join_list_of_strings.
  reflexivity.
Qed.

(** The specification's example: the three strings a, b, c give "a, b, c";
    the absent fields give the empty string. *)
Lemma parse_issue_normalizes_abc :
  affects_strings [("affects", VList [VStr "a"; VStr "b"; VStr "c"])] ["a"; "b"; "c"] ∧
  parse_issue (VDict [("affects", VList [VStr "a"; VStr "b"; VStr "c"])]) =
    Returned [("code", VStr ""); ("severity", VStr ""); ("location", VStr "");
              ("affects", VStr "a, b, c"); ("rule", VStr "")].
Proof.
  split; [reflexivity|].
  apply (parse_issue_normalizes
           [("affects", VList [VStr "a"; VStr "b"; VStr "c"])] ["a"; "b"; "c"]).
  reflexivity.
Defined.

(** C4, as stated, fails: an issue mapping whose "affects" sequence holds
    numbers makes [parse_issue] raise [TypeError]; so does an "affects"
    entry that is null. *)
Lemma parse_issue_can_fail :
  parse_issue (VDict [("code", VStr "A"); ("affects", VList [VInt 1; VInt 2])])
    = Raised TypeError ∧
  parse_issue (VDict [("affects", VNone)]) = Raised TypeError.
Proof. split; reflexivity. Qed.

(** ** The loop and the frame it builds *)

Lemma parse_issue_five_fields (issue : value) (record : pydict) :
  parse_issue issue = Returned record → five_fields record.
Proof.
  intros H. apply parse_issue_inv in H as (d & affects & _ & _ & ->).
  unfold five_fields. eauto 10.
Qed.

Lemma normalize_all_five_fields (issues records : list pydict) :
  normalize_all issues records → Forall five_fields records.
Proof.
  induction 1; constructor; eauto using parse_issue_five_fields.
Qed.

Lemma retained_cases (issue : pydict) :
  retained issue =
    if eq_str (field "severity" issue VNone) "error" then true
    else eq_str (field "severity" issue VNone) "warning".
Proof. unfold retained. by destruct (eq_str _ "error"). Qed.

Lemma for_issue_cons (df : DataFrame) (issue : pydict) (rest : list value) :
  for_issue df (VDict issue :: rest) =
    if retained issue then
      parsed ← parse_issue (VDict issue);
      for_issue (append_record df parsed) rest
    else for_issue df rest.
Proof.
  rewrite retained_cases. simpl for_issue.
  change (match dict_lookup "severity" issue with
          | Some v => v
          | None => VNone
          end) with (field "severity" issue VNone).
  destruct (eq_str _ "error"); [reflexivity|].
  by destruct (eq_str _ "warning").
Qed.

(** When every retained issue normalizes, the loop returns the start frame
    extended by the records, in order. *)
Lemma for_issue_retained (issues records : list pydict) (df : DataFrame) :
  normalize_all (List.filter retained issues) records →
  for_issue df (VDict <$> issues) = Returned (foldl append_record df records).
Proof.
  revert records df.
  induction issues as [|issue issues IH]; intros records df Hall.
  - inversion Hall. reflexivity.
  - rewrite fmap_cons, for_issue_cons. simpl in Hall.
    destruct (retained issue).
    + inversion Hall as [|? record ? records' Hparse Hrest]; subst.
      rewrite Hparse, bind_returned. simpl. by apply IH.
    + by apply IH.
Qed.

(** Conversely, a loop that returns has normalized every retained issue. *)
Lemma for_issue_inv (issues : list pydict) (df df' : DataFrame) :
  for_issue df (VDict <$> issues) = Returned df' →
  ∃ records,
    normalize_all (List.filter retained issues) records ∧
    df' = foldl append_record df records.
Proof.
  revert df.
  induction issues as [|issue issues IH]; intros df H.
  - injection H as <-. exists []. split; [constructor | reflexivity].
  - rewrite fmap_cons, for_issue_cons in H. simpl.
    destruct (retained issue).
    + apply bind_inv in H as (record & Hparse & H).
      apply IH in H as (records & Hall & ->).
      exists (record :: records). split; [by constructor | reflexivity].
    + by apply IH.
Qed.

Lemma for_issue_not_decode_error (items : list value) (df : DataFrame) :
  not_decode_error (for_issue df items).
Proof.
  revert df. induction items as [|issue items IH]; intros df; [discriminate|].
  simpl.
  pose proof (get_not_decode_error issue "severity" VNone) as Hget.
  pose proof (parse_issue_not_decode_error issue) as Hparse.
  destruct (get issue "severity" VNone) as [sev|e]; simpl;
    [|intros [= ->]; by apply Hget].
  destruct (eq_str sev "error").
  - destruct (parse_issue issue); simpl; [apply IH|].
    intros [= ->]; by apply Hparse.
  - destruct (eq_str sev "warning"); [|apply IH].
    destruct (parse_issue issue); simpl; [apply IH|].
    intros [= ->]; by apply Hparse.
Qed.

Lemma reindex_five_fields (records : list pydict) :
  Forall five_fields records →
  (λ row, (λ col, cell_at col issue_columns row) <$> issue_columns)
    <$> ((λ r : pydict, r.*2) <$> records)
  = (λ r : pydict, r.*2) <$> records.
Proof.
  induction 1 as [|record records (c & s & l & a & r & ->) _ IH];
    [reflexivity|].
  rewrite !fmap_cons, IH. reflexivity.
Qed.

Lemma append_record_table (records : list pydict) (record : pydict) :
  Forall five_fields records → five_fields record →
  append_record (table_of records) record = table_of (records ++ [record]).
Proof.
  intros Hrecords (c & s & l & a & r & ->).
  destruct records as [|r0 records]; [reflexivity|].
  unfold append_record, concat, table_of, reindex.
  cbn [columns rows of_record].
  change (issue_columns ++ List.filter _ _) with issue_columns.
  rewrite (reindex_five_fields _ Hrecords).
  rewrite fmap_app. reflexivity.
Qed.

Lemma foldl_append_record (records0 records : list pydict) :
  Forall five_fields records0 → Forall five_fields records →
  foldl append_record (table_of records0) records
  = table_of (records0 ++ records).
Proof.
  intros H0 H. revert records0 H0.
  induction H as [|record records Hrecord _ IH]; intros records0 H0.
  - by rewrite app_nil_r.
  - simpl. rewrite append_record_table by done.
    rewrite IH by (apply Forall_app; split; [done | by constructor]).
    by rewrite <- app_assoc.
Qed.

Lemma flatten_report (data : value) (issues : list pydict) :
  report_issues data issues →
  flatten data = for_issue empty (VDict <$> issues).
Proof.
  intros (top & inner & -> & Hinner & Hlist).
  unfold flatten. rewrite get_dict, bind_returned, Hinner.
  rewrite get_dict, bind_returned, Hlist. reflexivity.
Qed.

Lemma flatten_not_decode_error (data : value) : not_decode_error (flatten data).
Proof.
  unfold flatten, not_decode_error.
  pose proof (get_not_decode_error data "issues" (VDict [])) as H1.
  destruct (get data "issues" (VDict [])) as [issues|e]; simpl;
    [|intros [= ->]; by apply H1].
  pose proof (get_not_decode_error issues "issues" (VList [])) as H2.
  destruct (get issues "issues" (VList [])) as [l|e]; simpl;
    [|intros [= ->]; by apply H2].
  destruct l; simpl; try discriminate; apply for_issue_not_decode_error.
Qed.

Lemma flatten_retained (data : value) (issues records : list pydict) :
  report_issues data issues →
  normalize_all (List.filter retained issues) records →
  flatten data = Returned (table_of records).
Proof.
  intros Hreport Hall.
  rewrite (flatten_report _ _ Hreport), (for_issue_retained _ _ _ Hall).
  f_equal. apply (foldl_append_record [] records); [constructor|].
  by eapply normalize_all_five_fields.
Qed.

Lemma flatten_inv (data : value) (issues : list pydict) (df : DataFrame) :
  report_issues data issues →
  flatten data = Returned df →
  ∃ records,
    normalize_all (List.filter retained issues) records ∧ df = table_of records.
Proof.
  intros Hreport H. rewrite (flatten_report _ _ Hreport) in H.
  apply for_issue_inv in H as (records & Hall & ->).
  exists records. split; [done|].
  apply (foldl_append_record [] records); [constructor|].
  by eapply normalize_all_five_fields.
Qed.

(** ** [parse_validator_output] *)

Lemma output_decoded (output : string) (data : value) :
  Json.loads output = Returned data →
  parse_validator_output output =
    match flatten data with
    | Returned df => ([], Returned (Some df))
    | Raised e => ([], Raised e)
    end.
Proof.
  intros Hloads. unfold parse_validator_output.
  rewrite Hloads, bind_returned.
  pose proof (flatten_not_decode_error data) as Hflat.
  destruct (flatten data) as [df|e]; [reflexivity|].
  destruct e; try reflexivity. by destruct Hflat.
Qed.

Lemma output_returned (output : string) (data : value) (df : DataFrame) :
  Json.loads output = Returned data →
  flatten data = Returned df →
  parse_validator_output output = ([], Returned (Some df)).
Proof. intros Hloads Hflat. by rewrite (output_decoded _ _ Hloads), Hflat. Qed.

Lemma output_returned_inv (output : string) (data : value)
    (lines : list line) (df : DataFrame) :
  Json.loads output = Returned data →
  parse_validator_output output = (lines, Returned (Some df)) →
  flatten data = Returned df.
Proof.
  intros Hloads. rewrite (output_decoded _ _ Hloads).
  destruct (flatten data); [|discriminate]. by intros [= _ ->].
Qed.

(** The records of issues as the validator writes them. *)
Lemma typed_issue_record (issue : pydict) :
  typed_issue issue →
  ∃ record,
    normalized_record issue record ∧
    parse_issue (VDict issue) = Returned record.
Proof.
  intros (_ & _ & _ & ss & Haff). eexists. split; [exists ss; eauto|].
  rewrite parse_issue_dict, Haff, join_list_of_strings. reflexivity.
Qed.

Lemma retained_severity_string (issue : pydict) :
  retained issue = true → is_str (field "severity" issue (VStr "")) = true.
Proof.
  unfold retained, field.
  by destruct (dict_lookup "severity" issue) as [[]|].
Qed.

Lemma filter_retained (issues : list pydict) :
  Forall (λ issue, retained issue = true) (List.filter retained issues).
Proof.
  apply Forall_forall. intros issue Hin.
  apply list_elem_of_In, List.filter_In in Hin. tauto.
Qed.

Lemma typed_issues_records (issues : list pydict) :
  Forall typed_issue issues →
  Forall (λ issue, retained issue = true) issues →
  ∃ records,
    Forall2 normalized_record issues records ∧
    normalize_all issues records ∧
    Forall (λ record : pydict, Forall (λ x, is_str x = true) record.*2) records.
Proof.
  induction 1 as [|issue issues Htyped _ IH]; intros Hretained.
  - exists []. repeat split; constructor.
  - apply Forall_cons in Hretained as [Hsev Hretained].
    destruct (IH Hretained) as (records & Hrecords & Hall & Hstr).
    destruct (typed_issue_record _ Htyped) as (record & Hrecord & Hparse).
    exists (record :: records).
    split; [by constructor|]. split; [by constructor|].
    constructor; [|exact Hstr].
    destruct Hrecord as (ss & _ & ->).
    destruct Htyped as (Hcode & Hlocation & Hrule & _).
    apply retained_severity_string in Hsev.
    cbn. repeat constructor; assumption.
Qed.

(** C3, as amended.  For every decoded report with a sequence of issue
    mappings (a mapping whose "issues" entry, an empty mapping when absent,
    is a mapping whose "issues" entry, an empty sequence when absent, is a
    sequence of mappings) in which the issues with severity "error" or
    "warning" are written as the validator writes them (code, location and
    rule strings where present, affects a sequence of strings where
    present), the table holds exactly those issues: one row per retained
    issue, the row being that issue's normalized record (every cell a
    string), in the order of the report; the issues of any other or of no
    severity leave no row. *)
Theorem flattener_keeps_errors_and_warnings
    (output : string) (data : value) (issues : list pydict) :
  Json.loads output = Returned data →
  report_issues data issues →
  Forall typed_issue (List.filter retained issues) →
  ∃ records,
    Forall2 normalized_record (List.filter retained issues) records ∧
    parse_validator_output output = ([], Returned (Some (table_of records))) ∧
    rows (table_of records) = (λ r : pydict, r.*2) <$> records ∧
    length (rows (table_of records)) = length (List.filter retained issues) ∧
    Forall (Forall (λ x, is_str x = true)) (rows (table_of records)).
Proof.
  intros Hloads Hreport Htyped.
  destruct (typed_issues_records _ Htyped (filter_retained issues))
    as (records & Hrecords & Hall & Hstr).
  exists records. split; [exact Hrecords|]. split; [|split; [|split]].
  - eapply output_returned; [done|]. by eapply flatten_retained.
  - reflexivity.
  - unfold table_of. cbn [rows]. rewrite length_fmap.
    symmetry. by eapply Forall2_length.
  - unfold table_of. cbn [rows]. by apply Forall_fmap.
Qed.

(** The example of the specification: of the severities error, warning,
    info, error, the three retained issues give three rows, in order. *)
Lemma flattener_keeps_errors_and_warnings_example :
  parse_validator_output Samples.four_issues =
    ([], Returned (Some
       {| columns := ["code"; "severity"; "location"; "affects"; "rule"];
          rows :=
            [[VStr "A"; VStr "error"; VStr "/f1"; VStr "a, b, c"; VStr "r1"];
             [VStr "B"; VStr "warning"; VStr "/f2"; VStr ""; VStr ""];
             [VStr "D"; VStr "error"; VStr ""; VStr ""; VStr ""]] |})) ∧
  ∃ records,
    Forall2 normalized_record
      (List.filter retained Samples.four_issue_mappings) records ∧
    parse_validator_output Samples.four_issues
      = ([], Returned (Some (table_of records))) ∧
    length (rows (table_of records)) = 3.
Proof.
  split; [vm_compute; reflexivity|].
  destruct (flattener_keeps_errors_and_warnings Samples.four_issues
    (VDict [("issues",
             VDict [("issues", VList (VDict <$> Samples.four_issue_mappings))]);
            ("summary", VDict [("totalFiles", VInt 12)])])
    Samples.four_issue_mappings)
    as (records & Hrecords & Hout & _ & Hlength & _).
  - vm_compute. reflexivity.
  - exists [("issues",
             VDict [("issues", VList (VDict <$> Samples.four_issue_mappings))]);
            ("summary", VDict [("totalFiles", VInt 12)])],
           [("issues", VList (VDict <$> Samples.four_issue_mappings))].
    repeat split.
  - cbn. repeat constructor;
      first [by exists ["a"; "b"; "c"] | by exists []].
  - exists records. split; [exact Hrecords|]. split; [exact Hout|].
    exact Hlength.
Defined.

(** C3, as stated, fails: the report decodes and both of its issues are
    retained, yet no row is produced for either: the "affects" entry of
    the second is a number, joining it raises [TypeError], and the call
    ends with this exception instead of a table. *)
Lemma retained_issue_without_row :
  Json.loads Samples.affects_is_a_number =
    Returned (VDict [("issues", VDict [("issues", VList [
      VDict [("code", VStr "A"); ("severity", VStr "warning");
             ("location", VStr "/f1")];
      VDict [("code", VStr "B"); ("severity", VStr "error");
             ("affects", VInt 7)]])])]) ∧
  List.filter retained
    [[("code", VStr "A"); ("severity", VStr "warning"); ("location", VStr "/f1")];
     [("code", VStr "B"); ("severity", VStr "error"); ("affects", VInt 7)]]
  = [[("code", VStr "A"); ("severity", VStr "warning"); ("location", VStr "/f1")];
     [("code", VStr "B"); ("severity", VStr "error"); ("affects", VInt 7)]] ∧
  parse_validator_output Samples.affects_is_a_number = ([], Raised TypeError).
Proof. repeat split; vm_compute; reflexivity. Qed.

(** C9.  For every decoded report in which no issue has severity "error"
    or "warning", the table returned is empty and has no column; whenever a
    table is returned, it has the five columns code, severity, location,
    affects, rule exactly when at least one issue is retained, and no
    column otherwise. *)
Theorem no_retained_issue_no_column
    (output : string) (data : value) (issues : list pydict) :
  Json.loads output = Returned data →
  report_issues data issues →
  (List.filter retained issues = [] →
   parse_validator_output output =
     ([], Returned (Some {| columns := []; rows := [] |}))) ∧
  (∀ lines df,
     parse_validator_output output = (lines, Returned (Some df)) →
     columns df = match List.filter retained issues with
                  | [] => []
                  | _ :: _ => issue_columns
                  end).
Proof.
  intros Hloads Hreport. split.
  - intros Hnone. eapply output_returned; [done|].
    apply (flatten_retained data issues []); [done|].
    rewrite Hnone. constructor.
  - intros lines df Hout.
    apply (output_returned_inv _ _ _ _ Hloads) in Hout.
    apply (flatten_inv _ _ _ Hreport) in Hout as (records & Hall & ->).
    by destruct Hall.
Qed.

Lemma no_retained_issue_no_column_example :
  parse_validator_output Samples.only_info =
    ([], Returned (Some {| columns := []; rows := [] |})).
Proof.
  refine (proj1 (no_retained_issue_no_column Samples.only_info
    (VDict [("issues", VDict [("issues", VList (VDict <$>
       [[("code", VStr "C"); ("severity", VStr "info")];
        [("code", VStr "E")]]))])])
    [[("code", VStr "C"); ("severity", VStr "info")]; [("code", VStr "E")]]
    _ _) _).
  - vm_compute. reflexivity.
  - eexists _, _. repeat split.
  - reflexivity.
Defined.

(** A report without the outer or without the inner "issues" key is a
    report with no issue. *)
Lemma report_without_outer_key (top : pydict) :
  dict_lookup "issues" top = None → report_issues (VDict top) [].
Proof.
  intros Hnone. exists top, []. unfold field. rewrite Hnone. done.
Qed.

Lemma report_without_inner_key (top inner : pydict) :
  dict_lookup "issues" top = Some (VDict inner) →
  dict_lookup "issues" inner = None →
  report_issues (VDict top) [].
Proof.
  intros Hsome Hnone. exists top, inner. unfold field.
  rewrite Hsome, Hnone. done.
Qed.

(** C6, as amended.  For every decoded payload: when it is a mapping
    without the "issues" key, or a mapping whose "issues" entry is a
    mapping without the "issues" key, the flattener returns the empty
    table; when it is a report (a mapping whose "issues" entry, if present,
    is a mapping whose "issues" entry, if present, is a sequence of
    mappings) in which the "affects" entry of every retained issue is
    absent or a sequence of strings, the flattener returns a table and does
    not fail, whatever the types of the other entries of the issues. *)
Theorem flattener_defaults (output : string) (data : value) :
  Json.loads output = Returned data →
  (∀ top,
     data = VDict top → dict_lookup "issues" top = None →
     parse_validator_output output = ([], Returned (Some empty))) ∧
  (∀ top inner,
     data = VDict top →
     dict_lookup "issues" top = Some (VDict inner) →
     dict_lookup "issues" inner = None →
     parse_validator_output output = ([], Returned (Some empty))) ∧
  (∀ issues,
     report_issues data issues →
     Forall (λ issue, ∃ ss, affects_strings issue ss)
       (List.filter retained issues) →
     ∃ df, parse_validator_output output = ([], Returned (Some df))).
Proof.
  intros Hloads. split; [|split].
  - intros top -> Hnone. eapply output_returned; [done|].
    apply (flatten_retained _ [] []); [|constructor].
    by apply report_without_outer_key.
  - intros top inner -> Hsome Hnone. eapply output_returned; [done|].
    apply (flatten_retained _ [] []); [|constructor].
    by eapply report_without_inner_key.
  - intros issues Hreport Haff.
    assert (∃ records, normalize_all (List.filter retained issues) records)
      as [records Hall].
    { induction Haff as [|issue kept [ss Hss] _ [records IH]].
      - exists []. constructor.
      - eexists (_ :: records). constructor; [|exact IH].
        by apply parse_issue_normalizes with (ss := ss). }
    exists (table_of records).
    eapply output_returned; [done|]. by eapply flatten_retained.
Qed.

(** A report that has a summary and no "issues" key, and a report whose
    issue carries numbers where strings are expected but has no "affects"
    entry. *)
Lemma flattener_defaults_example :
  parse_validator_output (json_text "{'summary': {}}")
    = ([], Returned (Some empty)) ∧
  ∃ df,
    parse_validator_output
      (json_text "{'issues': {'issues': [{'severity': 'error', 'code': 7}]}}")
    = ([], Returned (Some df)).
Proof.
  split.
  - refine (proj1 (flattener_defaults (json_text "{'summary': {}}")
                     (VDict [("summary", VDict [])]) _) _ eq_refl _).
    + vm_compute. reflexivity.
    + reflexivity.
  - refine (proj2 (proj2 (flattener_defaults
      (json_text "{'issues': {'issues': [{'severity': 'error', 'code': 7}]}}")
      (VDict [("issues", VDict [("issues", VList (VDict <$>
         [[("severity", VStr "error"); ("code", VInt 7)]]))])]) _))
      [[("severity", VStr "error"); ("code", VInt 7)]] _ _).
    + vm_compute. reflexivity.
    + eexists _, _. repeat split.
    + repeat constructor. by exists [].
Defined.

(** C6, as stated, fails: a decoded payload with a wrong type at the issue
    level (a retained issue whose "affects" entry is a sequence of numbers)
    makes the flattener raise [TypeError]. *)
Lemma flattener_can_fail :
  (∃ data, Json.loads Samples.numeric_affects = Returned data) ∧
  parse_validator_output Samples.numeric_affects = ([], Raised TypeError).
Proof. split; [eexists|]; vm_compute; reflexivity. Qed.

(** C1, as amended.  For every text that is not valid JSON,
    [parse_validator_output] prints one line, "Error parsing JSON: " and
    the decoder's error, and returns [None]: no table, and no exception. *)
Theorem decode_failure_prints_and_returns_none (output : string) :
  Json.loads output = Raised JSONDecodeError →
  parse_validator_output output =
    ([("Error parsing JSON: ", JSONDecodeError)], Returned None).
Proof.
  intros Hloads. unfold parse_validator_output.
  rewrite Hloads. reflexivity.
Qed.

Lemma decode_failure_prints_and_returns_none_example :
  Json.loads Samples.truncated_report = Raised JSONDecodeError ∧
  parse_validator_output Samples.truncated_report =
    ([("Error parsing JSON: ", JSONDecodeError)], Returned None).
Proof.
  split; [vm_compute; reflexivity|].
  apply (decode_failure_prints_and_returns_none Samples.truncated_report).
  vm_compute. reflexivity.
Defined.

(** C1, as stated, fails: on a truncated report the function raises
    nothing and returns [None]. *)
Lemma decode_failure_is_not_raised :
  Json.loads Samples.truncated_report = Raised JSONDecodeError ∧
  (parse_validator_output Samples.truncated_report).2 = Returned None ∧
  ∀ e, (parse_validator_output Samples.truncated_report).2 ≠ Raised e.
Proof.
  split; [|split]; [vm_compute; reflexivity ..|].
  intros e. vm_compute. discriminate.
Qed.

(** [None] is returned for no other reason than a text that does not
    decode. *)
Lemma none_only_on_decode_failure (output : string) (lines : list line) :
  parse_validator_output output = (lines, Returned None) →
  Json.loads output = Raised JSONDecodeError.
Proof.
  unfold parse_validator_output.
  destruct (Json.loads output) as [data|e] eqn:Hloads.
  - rewrite bind_returned.
    pose proof (flatten_not_decode_error data) as Hflat.
    destruct (flatten data) as [df|e]; [discriminate|].
    destruct e; try discriminate. by destruct Hflat.
  - rewrite bind_raised. destruct e; try discriminate. done.
Qed.

(** ** [get_val_dictionary] *)

(** C8.  The catalog is the same mapping at every call; each of the
    column names location, code, severity and rule resolves in it to a
    description that is not empty; its entry "subCode" names no column of
    the table. *)
Theorem catalog_describes_columns :
  (∀ u u' : unit, get_val_dictionary u = get_val_dictionary u') ∧
  Forall (λ col,
            In col issue_columns ∧
            ∃ description,
              dict_lookup col (get_val_dictionary ()) =
                Some (VDict [("Description", VStr description)]) ∧
              description ≠ "")
    ["location"; "code"; "severity"; "rule"] ∧
  (∃ entry, dict_lookup "subCode" (get_val_dictionary ()) = Some entry) ∧
  ¬ In "subCode" issue_columns.
Proof.
  split; [by intros [] []|]. split; [|split].
  - repeat constructor; simpl; eauto 6;
      eexists; (split; [reflexivity | discriminate]).
  - eexists. reflexivity.
  - simpl. intros H. repeat destruct H as [H|H]; try discriminate H. exact H.
Qed.

(** ** Strings and paths *)

Lemma string_app_cons (x : ascii) (a b : string) :
  String x a +:+ b = String x (a +:+ b).
Proof. reflexivity. Qed.

Lemma string_app_nil (b : string) : "" +:+ b = b.
Proof. reflexivity. Qed.

Lemma string_app_assoc (a b c : string) : (a +:+ b) +:+ c = a +:+ b +:+ c.
Proof.
  induction a as [|x a IH]; [reflexivity|].
  by rewrite !string_app_cons, IH.
Qed.

Lemma endswith_app (a b : string) : endswith (a +:+ b) b = true.
Proof.
  induction a as [|x a IH].
  - rewrite string_app_nil. destruct b; cbn [endswith]; by rewrite String.eqb_refl.
  - rewrite string_app_cons. cbn [endswith]. rewrite IH.
    by destruct (String.eqb _ b).
Qed.

Lemma endswith_inv (s suffix : string) :
  endswith s suffix = true → ∃ front, s = front +:+ suffix.
Proof.
  induction s as [|x s IH]; cbn [endswith].
  - destruct (String.eqb_spec "" suffix) as [<-|]; [|done].
    intros _. by exists "".
  - destruct (String.eqb_spec (String x s) suffix) as [<-|_].
    + intros _. by exists "".
    + intros H. apply IH in H as [front ->]. by exists (String x front).
Qed.

Lemma prefix_app (a b : string) : String.prefix a (a +:+ b) = true.
Proof.
  induction a as [|x a IH]; [by destruct b|].
  rewrite string_app_cons. simpl.
  destruct (ascii_dec x x); [exact IH | done].
Qed.

Lemma split_slash_nonempty (s : string) : split_slash s ≠ [].
Proof.
  destruct s as [|c s]; simpl; [done|].
  destruct (split_slash s); [done|]. by destruct (is_slash c).
Qed.

Lemma split_slash_segment (s : string) :
  has_slash s = false → split_slash s = [s].
Proof.
  induction s as [|c s IH]; simpl; [done|].
  intros H. apply orb_false_iff in H as [Hc Hs].
  rewrite (IH Hs), Hc. reflexivity.
Qed.

Lemma split_slash_app (a b : string) :
  split_slash (a +:+ "/" +:+ b) = split_slash a ++ split_slash b.
Proof.
  induction a as [|c a IH].
  - rewrite string_app_nil, string_app_cons, string_app_nil. simpl.
    pose proof (split_slash_nonempty b). by destruct (split_slash b).
  - rewrite string_app_cons. simpl. rewrite IH.
    pose proof (split_slash_nonempty a).
    destruct (split_slash a); [done|]. by destruct (is_slash c).
Qed.

Lemma split_slash_no_slash (s : string) :
  Forall (λ seg, has_slash seg = false) (split_slash s).
Proof.
  induction s as [|c s IH]; simpl; [by repeat constructor|].
  pose proof (split_slash_nonempty s) as Hne.
  destruct (split_slash s) as [|seg segs]; [done|].
  inversion IH; subst.
  destruct (is_slash c) eqn:Hc; repeat constructor; try done.
  simpl. by rewrite Hc.
Qed.

(** The name of a path never holds a separator. *)
Lemma PurePath_name_no_slash (p : string) : has_slash (PurePath_name p) = false.
Proof.
  unfold PurePath_name.
  destruct (last _) as [name|] eqn:Hlast; [|reflexivity]. simpl.
  apply last_Some_elem_of, list_elem_of_In, filter_In in Hlast as [Hin _].
  pose proof (split_slash_no_slash p) as Hall.
  rewrite Forall_forall in Hall. apply Hall. by apply list_elem_of_In.
Qed.

(** The name of a directory path that ends with a separator is its last
    segment. *)
Lemma PurePath_name_directory (front label : string) :
  is_segment label →
  front = "" ∨ endswith front "/" = true →
  PurePath_name (front +:+ label +:+ "/") = label.
Proof.
  intros [Hslash Hpart] Hfront. unfold PurePath_name.
  assert (∃ segs, split_slash (front +:+ label +:+ "/") = segs ++ [label; ""])
    as [segs ->].
  { destruct Hfront as [->|Hends].
    - exists []. change ("" +:+ label +:+ "/") with (label +:+ "/" +:+ "").
      by rewrite split_slash_app, (split_slash_segment label).
    - apply endswith_inv in Hends as [front' ->].
      exists (split_slash front').
      rewrite string_app_assoc.
      change ("/" +:+ label +:+ "/") with ("/" +:+ (label +:+ "/" +:+ "")).
      by rewrite !split_slash_app, (split_slash_segment label). }
  rewrite List.filter_app. simpl. rewrite Hpart. simpl.
  by rewrite last_snoc.
Qed.

(** ** [build_subject_paths] *)

Section Partition.
Variable h : host.

Lemma build_subject_paths_unfold (bids_dir : string) :
  build_subject_paths h bids_dir =
    if length (subjects_of h bids_dir) <? 1 then
      Raised (ValueError
        ("Couldn't find any subjects in the specified directory:" +:+ newline
         +:+ search_pattern bids_dir))
    else
      Returned (foldl (add_subject h (listed_root_files h bids_dir)) ∅
                  (subjects_of h bids_dir)).
Proof. reflexivity. Qed.

Lemma build_subject_paths_found (bids_dir : string) :
  subjects_of h bids_dir ≠ [] →
  build_subject_paths h bids_dir =
    Returned (foldl (add_subject h (listed_root_files h bids_dir)) ∅
                (subjects_of h bids_dir)).
Proof.
  intros Hsome. rewrite build_subject_paths_unfold.
  by destruct (subjects_of h bids_dir).
Qed.

Lemma build_subject_paths_inv
    (bids_dir : string) (m : gmap string (list string)) :
  build_subject_paths h bids_dir = Returned m →
  m = foldl (add_subject h (listed_root_files h bids_dir)) ∅
        (subjects_of h bids_dir).
Proof.
  rewrite build_subject_paths_unfold.
  destruct (length _ <? 1); [discriminate|]. by intros [= <-].
Qed.

(** What one entry of the manifest holds, whatever the loop started from. *)
Lemma foldl_add_subject_lookup (root_files : list string) (subs : list string)
    (m0 : gmap string (list string)) (label : string) (files : list string) :
  foldl (add_subject h root_files) m0 subs !! label = Some files →
  m0 !! label = Some files ∨
  ∃ sub, sub ∈ subs ∧ PurePath_name sub = label ∧
         files = subject_files h sub ++ root_files.
Proof.
  revert m0. induction subs as [|sub subs IH]; intros m0 H; [by left|].
  simpl in H. apply IH in H as [H|(sub' & Hin & Hname & Hfiles)].
  - unfold add_subject in H.
    destruct (decide (PurePath_name sub = label)) as [Heq|Hne].
    + rewrite Heq, lookup_insert_eq in H. injection H as <-.
      right. exists sub. split; [apply list_elem_of_here | done].
    + rewrite lookup_insert_ne in H by done. by left.
  - right. exists sub'. split; [by apply list_elem_of_further | done].
Qed.

Lemma foldl_add_subject_keeps (root_files : list string) (subs : list string)
    (m0 : gmap string (list string)) (label : string) :
  is_Some (m0 !! label) →
  is_Some (foldl (add_subject h root_files) m0 subs !! label).
Proof.
  revert m0. induction subs as [|sub subs IH]; intros m0 H; [done|].
  simpl. apply IH. unfold add_subject.
  destruct (decide (PurePath_name sub = label)) as [<-|Hne].
  - rewrite lookup_insert_eq. eauto.
  - by rewrite lookup_insert_ne.
Qed.

Lemma foldl_add_subject_key (root_files : list string) (subs : list string)
    (m0 : gmap string (list string)) (sub : string) :
  sub ∈ subs →
  is_Some (foldl (add_subject h root_files) m0 subs !! PurePath_name sub).
Proof.
  revert m0. induction subs as [|sub' subs IH]; intros m0 Hin.
  - by apply elem_of_nil in Hin.
  - apply elem_of_cons in Hin as [->|Hin]; simpl; [|by apply IH].
    apply foldl_add_subject_keeps. unfold add_subject.
    rewrite lookup_insert_eq. eauto.
Qed.

(** C10.  The manifest is the same whether the root is given without or
    with its trailing separator: [build_subject_paths] adds the separator
    that is missing. *)
Theorem trailing_separator_invariant (bids_dir : string) :
  endswith bids_dir "/" = false →
  build_subject_paths h (bids_dir +:+ "/") = build_subject_paths h bids_dir.
Proof.
  intros Hends. unfold build_subject_paths.
  by rewrite endswith_app, Hends.
Qed.

(** The root given is the start of the pattern that is searched. *)
Lemma search_pattern_prefix (bids_dir : string) :
  String.prefix bids_dir (search_pattern bids_dir) = true.
Proof.
  unfold search_pattern, normalized.
  destruct (endswith bids_dir "/"); [|rewrite string_app_assoc];
    apply prefix_app.
Qed.

(** C5, as amended.  When at least one subject directory is found, a
    manifest is returned, every subject found has its key, and the list
    under every key is the regular files listed below a subject of that
    name followed by exactly the regular files that the listing of the
    root's direct children gives, the same for every key. *)
Theorem root_files_follow_subject_files (bids_dir : string) :
  subjects_of h bids_dir ≠ [] →
  ∃ m,
    build_subject_paths h bids_dir = Returned m ∧
    (∀ sub, sub ∈ subjects_of h bids_dir → is_Some (m !! PurePath_name sub)) ∧
    (∀ label files,
       m !! label = Some files →
       ∃ sub,
         sub ∈ subjects_of h bids_dir ∧ PurePath_name sub = label ∧
         files = subject_files h sub ++ listed_root_files h bids_dir).
Proof.
  intros Hsome. eexists. split; [by apply build_subject_paths_found|].
  split.
  - intros sub Hin. by apply foldl_add_subject_key.
  - intros label files Hlookup.
    apply foldl_add_subject_lookup in Hlookup as [Hempty|Hsub]; [|done].
    by rewrite lookup_empty in Hempty.
Qed.

(** C7.  Every key of the manifest is the name of a subject path that was
    found, and holds no separator; a subject path made of a front part, a
    segment and the trailing separator has that segment as its name and as
    its key, and the path itself is no key. *)
Theorem manifest_keyed_by_base_name
    (bids_dir : string) (m : gmap string (list string)) :
  build_subject_paths h bids_dir = Returned m →
  (∀ key, is_Some (m !! key) →
     has_slash key = false ∧
     ∃ sub, sub ∈ subjects_of h bids_dir ∧ key = PurePath_name sub) ∧
  (∀ front label,
     front +:+ label +:+ "/" ∈ subjects_of h bids_dir →
     is_segment label →
     front = "" ∨ endswith front "/" = true →
     PurePath_name (front +:+ label +:+ "/") = label ∧
     is_Some (m !! label) ∧
     m !! (front +:+ label +:+ "/") = None).
Proof.
  intros Hm. apply build_subject_paths_inv in Hm as ->.
  assert (∀ key,
    is_Some (foldl (add_subject h (listed_root_files h bids_dir)) ∅
               (subjects_of h bids_dir) !! key) →
    has_slash key = false ∧
    ∃ sub, sub ∈ subjects_of h bids_dir ∧ key = PurePath_name sub) as Hkeys.
  { intros key [files Hlookup].
    apply foldl_add_subject_lookup in Hlookup as [Hempty|Hsub].
    - by rewrite lookup_empty in Hempty.
    - destruct Hsub as (sub & Hin & <- & _).
      split; [apply PurePath_name_no_slash | eauto]. }
  split; [exact Hkeys|].
  intros front label Hin Hseg Hfront.
  pose proof (PurePath_name_directory front label Hseg Hfront) as Hname.
  split; [done|]. split.
  - rewrite <- Hname. by apply foldl_add_subject_key.
  - apply eq_None_not_Some. intros Hkey. apply Hkeys in Hkey as [Hslash _].
    clear -Hslash. induction front as [|c front IH]; simpl in Hslash.
    + induction label as [|c label IH]; simpl in Hslash; [done|].
      apply orb_false_iff in Hslash as [_ Hslash]. by apply IH.
    + apply orb_false_iff in Hslash as [_ Hslash]. by apply IH.
Qed.

End Partition.

(** ** The directory-tree host *)

Lemma cut_last_slash_app (p h t : string) :
  TreeFS.cut_last_slash p = (h, t) → p = h +:+ t.
Proof.
  revert h t. induction p as [|c p IH]; intros h t; simpl.
  - by intros [= <- <-].
  - destruct (TreeFS.cut_last_slash p) as [h' t'].
    specialize (IH h' t' eq_refl) as ->.
    destruct (String.eqb_spec h' "") as [->|_].
    + destruct (is_slash c); by intros [= <- <-].
    + by intros [= <- <-].
Qed.

Lemma string_length_app (a b : string) :
  String.length (a +:+ b) = String.length a + String.length b.
Proof.
  induction a as [|x a IH]; [reflexivity|].
  rewrite string_app_cons. simpl. by rewrite IH.
Qed.

Lemma rstrip_slash_length (s : string) :
  String.length (TreeFS.rstrip_slash s) ≤ String.length s.
Proof.
  induction s as [|c s IH]; simpl; [done|].
  destruct (String.eqb _ "" && is_slash c); simpl; lia.
Qed.

Lemma rstrip_slash_same_length (s : string) :
  String.length (TreeFS.rstrip_slash s) = String.length s →
  TreeFS.rstrip_slash s = s.
Proof.
  induction s as [|c s IH]; simpl; [done|].
  pose proof (rstrip_slash_length s) as Hlen.
  destruct (String.eqb _ "" && is_slash c); simpl; [lia|].
  intros Heq. f_equal. apply IH. lia.
Qed.

(** The directory part of a path is a strictly shorter path, unless it is
    the path itself. *)
Lemma os_path_split_shorter (p dirname basename : string) :
  TreeFS.os_path_split p = (dirname, basename) →
  dirname ≠ p →
  String.length dirname < String.length p.
Proof.
  unfold TreeFS.os_path_split.
  destruct (TreeFS.cut_last_slash p) as [h t] eqn:Hcut.
  apply cut_last_slash_app in Hcut as ->.
  intros [= <- <-] Hne.
  rewrite string_length_app.
  pose proof (rstrip_slash_length h) as Hlen.
  destruct (String.length t) eqn:Ht.
  - destruct t; [|done].
    assert (h +:+ "" = h) as Hnil.
    { clear. induction h as [|c h IH]; [done|]. by rewrite string_app_cons, IH. }
    rewrite Hnil in Hne.
    destruct (String.eqb _ ""); [done|].
    destruct (decide (String.length (TreeFS.rstrip_slash h) = String.length h))
      as [Heq|]; [|lia].
    by apply rstrip_slash_same_length in Heq.
  - destruct (String.eqb _ ""); lia.
Qed.

Lemma iglob_fuel (root : TreeFS.node) (n m : nat) (p : string) (r d : bool) :
  String.length p < n → String.length p < m →
  TreeFS.iglob root n p r d = TreeFS.iglob root m p r d.
Proof.
  revert m p d. induction n as [|n IH]; intros m p d Hn Hm; [lia|].
  destruct m as [|m]; [lia|].
  cbn [TreeFS.iglob].
  destruct (TreeFS.os_path_split p) as [dirname basename] eqn:Hsplit.
  destruct (negb (TreeFS.has_magic p)); [done|].
  destruct (String.eqb dirname ""); [done|].
  destruct (String.eqb_spec dirname p) as [Heq|Hne]; [done|].
  cbn [negb andb].
  destruct (TreeFS.has_magic dirname); [|done].
  pose proof (os_path_split_shorter _ _ _ Hsplit Hne).
  rewrite (IH m dirname true) by lia. done.
Qed.

Section TreeHost.
Import TreeFS.
Variable root : node.

Lemma has_magic_app (a b : string) :
  has_magic (a +:+ b) = has_magic a || has_magic b.
Proof.
  induction a as [|c a IH]; [reflexivity|].
  rewrite string_app_cons. simpl. rewrite IH. by rewrite orb_assoc.
Qed.

Lemma has_magic_rstrip_slash (s : string) :
  has_magic s = false → has_magic (rstrip_slash s) = false.
Proof.
  induction s as [|c s IH]; simpl; [done|].
  intros H. apply orb_false_iff in H as [Hc Hs].
  destruct (String.eqb _ "" && is_slash c); [done|].
  simpl. by rewrite Hc, IH.
Qed.

Lemma has_magic_normalized (bids_dir : string) :
  has_magic bids_dir = false → has_magic (normalized bids_dir) = false.
Proof.
  intros H. unfold normalized.
  destruct (endswith bids_dir "/"); [done|].
  by rewrite has_magic_app, H.
Qed.

Lemma has_magic_parent_path (D : string) :
  has_magic D = false → has_magic (parent_path D) = false.
Proof.
  intros H. unfold parent_path.
  destruct (String.eqb _ ""); [done | by apply has_magic_rstrip_slash].
Qed.

Lemma normalized_ends (bids_dir : string) :
  ∃ front, normalized bids_dir = front +:+ "/".
Proof.
  unfold normalized. destruct (endswith bids_dir "/") eqn:Hends; [|eauto].
  by apply endswith_inv.
Qed.

Lemma string_app_empty (s : string) : s +:+ "" = s.
Proof. induction s as [|c s IH]; [done|]. by rewrite string_app_cons, IH. Qed.

Lemma string_app_not_empty (a b : string) : b ≠ "" → a +:+ b ≠ "".
Proof. destruct a; [done|]. by rewrite string_app_cons. Qed.

Lemma cut_last_slash_segment (t : string) :
  has_slash t = false → cut_last_slash t = ("", t).
Proof.
  induction t as [|c t IH]; simpl; [done|].
  intros H. apply orb_false_iff in H as [Hc Ht].
  by rewrite (IH Ht), Hc.
Qed.

Lemma cut_last_slash_app_segment (s t : string) :
  has_slash t = false →
  cut_last_slash (s +:+ "/" +:+ t) = (s +:+ "/", t).
Proof.
  intros Ht. change ("/" +:+ t) with (String "/" t).
  induction s as [|c s IH].
  - rewrite !string_app_nil. cbn [cut_last_slash].
    by rewrite (cut_last_slash_segment t Ht).
  - rewrite !string_app_cons. cbn [cut_last_slash]. rewrite IH.
    destruct (String.eqb_spec (s +:+ "/") "") as [Heq|_]; [|done].
    by apply string_app_not_empty in Heq.
Qed.

Lemma rstrip_slash_app (s x : string) :
  rstrip_slash x ≠ "" → rstrip_slash (s +:+ x) = s +:+ rstrip_slash x.
Proof.
  intros Hx. induction s as [|c s IH]; [done|].
  rewrite !string_app_cons. cbn [rstrip_slash]. rewrite IH.
  destruct (String.eqb_spec (s +:+ rstrip_slash x) "") as [Heq|_]; [|done].
  by apply string_app_not_empty in Heq.
Qed.

(** The two patterns of the partition, cut by [os.path.split]. *)
Lemma split_children_pattern (front pattern : string) :
  has_slash pattern = false →
  os_path_split ((front +:+ "/") +:+ pattern)
  = (parent_path (front +:+ "/"), pattern).
Proof.
  intros Hp. unfold os_path_split.
  rewrite string_app_assoc.
  change ("/" +:+ pattern) with ("/" +:+ pattern).
  by rewrite cut_last_slash_app_segment.
Qed.

Lemma split_directories_pattern (D : string) :
  os_path_split (D +:+ "sub-*/") = (D +:+ "sub-*", "").
Proof.
  unfold os_path_split.
  change (D +:+ "sub-*/") with (D +:+ "sub-*" +:+ "/" +:+ "").
  rewrite <- string_app_assoc, cut_last_slash_app_segment by done.
  rewrite string_app_assoc.
  rewrite (rstrip_slash_app D ("sub-*" +:+ "/")) by done.
  change (rstrip_slash ("sub-*" +:+ "/")) with "sub-*".
  destruct (String.eqb_spec (D +:+ "sub-*") "") as [Heq|_]; [|done].
  by apply string_app_not_empty in Heq.
Qed.

Lemma parent_path_not_empty (front : string) : parent_path (front +:+ "/") ≠ "".
Proof.
  unfold parent_path.
  destruct (String.eqb_spec (rstrip_slash (front +:+ "/")) "") as [_|Hne];
    [|done].
  by apply string_app_not_empty.
Qed.

(** The subject directories found under a root without wildcard
    characters: the sub-directories of the root whose names match. *)
Lemma tree_subjects (bids_dir : string) :
  has_magic bids_dir = false →
  subjects_of (tree_host root) bids_dir =
    dirname ← os_path_join (parent_path (normalized bids_dir))
                <$> glob1 root (parent_path (normalized bids_dir)) "sub-*" true;
    os_path_join dirname <$> glob0 root dirname "" false.
Proof.
  intros Hmagic. unfold subjects_of, search_pattern. cbn [glob_glob tree_host].
  pose proof (has_magic_normalized _ Hmagic) as HD.
  destruct (normalized_ends bids_dir) as [front HDf].
  set (D := normalized bids_dir) in *.
  unfold glob.
  assert (String.eqb (D +:+ "sub-*/") "" = false) as ->.
  { apply String.eqb_neq. by apply string_app_not_empty. }
  cbn [andb orb].
  cbn [iglob]. rewrite split_directories_pattern.
  rewrite has_magic_app, HD. cbn [orb negb has_magic is_magic].
  change (Ascii.eqb "s" "*" || _ || _ || _) with true. cbn [negb].
  assert (String.eqb (D +:+ "sub-*") "" = false) as ->.
  { apply String.eqb_neq. by apply string_app_not_empty. }
  assert (String.eqb (D +:+ "sub-*") (D +:+ "sub-*/") = false) as ->.
  { apply String.eqb_neq. intros Heq.
    apply (f_equal String.length) in Heq.
    rewrite !string_length_app in Heq. simpl in Heq. lia. }
  assert (has_magic (D +:+ "sub-*") = true) as ->.
  { by rewrite has_magic_app, HD. }
  cbn [negb andb].
  f_equal.
  destruct (String.length (D +:+ "sub-*/")) as [|n] eqn:Hlen.
  { rewrite string_length_app in Hlen. simpl in Hlen. lia. }
  cbn [iglob]. rewrite HDf, split_children_pattern by done. rewrite <- HDf.
  rewrite has_magic_app, HD. cbn [orb negb].
  change (has_magic "sub-*") with true. cbn [negb].
  assert (String.eqb (parent_path D) "" = false) as ->.
  { apply String.eqb_neq. rewrite HDf. apply parent_path_not_empty. }
  rewrite (has_magic_parent_path _ HD).
  destruct (negb _ && false) eqn:Hcond; [by rewrite andb_false_r in Hcond|].
  change ([parent_path D] ≫= ?f) with (f (parent_path D) ++ []).
  by rewrite app_nil_r.
Qed.

End TreeHost.

Section TreePaths.
Import TreeFS.
Variable root : node.

Lemma walk_empties (above : list node) (entries : list (string * node))
    (comps : list string) :
  Forall (λ c, c = "") comps →
  walk above (Dir entries) comps = Some (Dir entries).
Proof. induction 1 as [|c comps -> _ IH]; [done | exact IH]. Qed.

Lemma walk_app_empties (comps empties : list string) (above : list node)
    (cur : node) (entries : list (string * node)) :
  Forall (λ c, c = "") empties →
  walk above cur comps = Some (Dir entries) →
  walk above cur (comps ++ empties) = Some (Dir entries).
Proof.
  intros Hempties. revert above cur.
  induction comps as [|c comps IH]; intros above cur.
  - simpl. intros [= ->]. by apply walk_empties.
  - simpl. destruct cur as [| |es]; try done.
    destruct (String.eqb c "" || String.eqb c "."); [apply IH|].
    destruct (String.eqb c "..").
    + destruct above; apply IH.
    + destruct (child c es); [apply IH | done].
Qed.

Lemma walk_app_empties_inv (comps empties : list string) (above : list node)
    (cur x : node) :
  Forall (λ c, c = "") empties → empties ≠ [] →
  walk above cur (comps ++ empties) = Some x →
  walk above cur comps = Some x ∧ is_dir_node x = true.
Proof.
  intros Hempties Hne. revert above cur.
  induction comps as [|c comps IH]; intros above cur.
  - simpl. destruct Hempties as [|e empties -> Hrest]; [done|].
    simpl. destruct cur as [| |es]; try done.
    rewrite (walk_empties _ _ _ Hrest). by intros [= <-].
  - simpl. destruct cur as [| |es]; try done.
    destruct (String.eqb c "" || String.eqb c "."); [apply IH|].
    destruct (String.eqb c "..").
    + destruct above; apply IH.
    + destruct (child c es); [apply IH | done].
Qed.

Lemma walk_app_name (comps : list string) (name : string) (above : list node)
    (cur : node) :
  entry_name name →
  walk above cur (comps ++ [name]) =
    match walk above cur comps with
    | Some (Dir entries) => child name entries
    | _ => None
    end.
Proof.
  intros ([_ Hpart] & Hdots). revert above cur.
  assert (String.eqb name "" || String.eqb name "." = false) as Hplain.
  { unfold is_part in Hpart. apply andb_true_iff in Hpart as [H1 H2].
    apply negb_true_iff in H1, H2. by rewrite H1, H2. }
  apply String.eqb_neq in Hdots.
  induction comps as [|c comps IH]; intros above cur.
  - simpl. destruct cur as [| |es]; try done.
    rewrite Hplain, Hdots. by destruct (child name es).
  - simpl. destruct cur as [| |es]; try done.
    destruct (String.eqb c "" || String.eqb c "."); [apply IH|].
    destruct (String.eqb c "..").
    + destruct above; apply IH.
    + destruct (child c es); [apply IH | done].
Qed.

Lemma rstrip_slash_parts (s : string) :
  ∃ z, s = rstrip_slash s +:+ z ∧ all_slashes z = true.
Proof.
  induction s as [|c s (z & Hs & Hz)]; [by exists ""|].
  simpl.
  destruct (String.eqb_spec (rstrip_slash s) "") as [Hnil|_].
  - destruct (is_slash c) eqn:Hc; simpl.
    + exists (String c s). split; [done|]. simpl. rewrite Hc.
      rewrite Hs, Hnil. exact Hz.
    + exists z. by rewrite string_app_cons, <- Hs.
  - simpl. exists z. by rewrite string_app_cons, <- Hs.
Qed.

Lemma split_slash_all_slashes (z : string) :
  all_slashes z = true → Forall (λ c, c = "") (split_slash z).
Proof.
  induction z as [|c z IH]; simpl; [by repeat constructor|].
  intros H. apply andb_true_iff in H as [Hc Hz].
  specialize (IH Hz). pose proof (split_slash_nonempty z) as Hne.
  destruct (split_slash z) as [|seg segs]; [done|].
  rewrite Hc. by constructor.
Qed.

Lemma rstrip_slash_no_end (s : string) :
  endswith (rstrip_slash s) "/" = false.
Proof.
  induction s as [|c s IH]; simpl; [done|].
  destruct (String.eqb_spec (rstrip_slash s) "") as [Hnil|Hne]; simpl.
  - destruct (is_slash c) eqn:Hc; [done|].
    rewrite Hnil. cbn [endswith]. 
    destruct (String.eqb_spec (String c "") "/") as [[= ->]|_]; [done|].
    reflexivity.
  - cbn [endswith]. rewrite IH.
    apply String.eqb_neq in Hne as ->. by destruct (Ascii.eqb c "/").
Qed.

(** A directory path names the same directory with or without its
    trailing separators. *)
Lemma stat_parent_path (front : string) (entries : list (string * node)) :
  stat root (parent_path (front +:+ "/")) = Some (Dir entries) ↔
  stat root (front +:+ "/") = Some (Dir entries).
Proof.
  unfold parent_path.
  destruct (String.eqb_spec (rstrip_slash (front +:+ "/")) "") as [_|Hne];
    [done|].
  destruct (rstrip_slash_parts (front +:+ "/")) as (z & Hparts & Hz).
  set (p := rstrip_slash (front +:+ "/")) in *.
  destruct z as [|c z].
  { rewrite string_app_empty in Hparts.
    pose proof (rstrip_slash_no_end (front +:+ "/")) as Hend.
    fold p in Hend. rewrite <- Hparts, endswith_app in Hend. done. }
  simpl in Hz. apply andb_true_iff in Hz as [Hc Hz].
  apply Ascii.eqb_eq in Hc as ->.
  rewrite Hparts. unfold stat.
  assert (String.eqb (p +:+ String "/" z) "" = false) as ->.
  { apply String.eqb_neq. by apply string_app_not_empty. }
  apply String.eqb_neq in Hne as ->.
  change (String "/" z) with ("/" +:+ z). rewrite split_slash_app.
  pose proof (split_slash_all_slashes z Hz) as Hempties.
  split.
  - by apply walk_app_empties.
  - intros H. apply walk_app_empties_inv in H as [H _]; [done..|].
    apply split_slash_nonempty.
Qed.

End TreePaths.

Section TreeListing.
Import TreeFS.
Variable root : node.

Lemma segment_no_leading_slash (name : string) :
  has_slash name = false → head_is is_slash name = false.
Proof.
  destruct name as [|c name]; [done|]. simpl.
  intros H. by apply orb_false_iff in H as [-> _].
Qed.

Lemma endswith_segment (front name : string) :
  has_slash name = false → name ≠ "" → endswith (front +:+ name) "/" = false.
Proof.
  intros Hslash Hne.
  destruct (endswith (front +:+ name) "/") eqn:Hends; [|done].
  apply endswith_inv in Hends as [x Hx].
  assert (has_slash (x +:+ "/") = true) as Hx_slash.
  { clear. induction x as [|c x IH]; [done|].
    rewrite string_app_cons. simpl. by rewrite IH, orb_true_r. }
  assert (∃ y, name = y +:+ "/") as [y ->].
  { clear Hslash Hx_slash. revert x Hx.
    induction front as [|c front IH]; intros x Hx.
    - rewrite string_app_nil in Hx. eauto.
    - destruct x as [|c' x].
      + rewrite string_app_cons, string_app_nil in Hx.
        injection Hx as _ Hx. by destruct front, name.
      + rewrite !string_app_cons in Hx. injection Hx as _ Hx. eauto. }
  clear -Hslash. exfalso.
  induction y as [|c y IH]; [done|].
  rewrite string_app_cons in Hslash. simpl in Hslash.
  apply orb_false_iff in Hslash as [_ Hslash]. by apply IH.
Qed.

(** The path of an entry of a directory: the directory's path, a
    separator unless the path ends with one, and the entry's name. *)
Lemma os_path_join_entry (P name : string) :
  entry_name name →
  ∃ front,
    os_path_join P name = front +:+ name ∧
    (front = "" ∨ endswith front "/" = true) ∧
    (P ≠ "" → split_slash (os_path_join P name)
              = match endswith P "/" with
                | true => removelast (split_slash P)
                | false => split_slash P
                end ++ [name]).
Proof.
  intros ([Hslash Hpart] & _). unfold os_path_join.
  rewrite (segment_no_leading_slash _ Hslash).
  destruct (String.eqb_spec P "") as [->|HP].
  { exists "". split; [done|]. split; [by left | done]. }
  cbn [orb].
  destruct (endswith P "/") eqn:Hends.
  - exists P. split; [done|]. split; [by right|]. intros _.
    apply endswith_inv in Hends as [f ->].
    assert (split_slash (f +:+ "/") = split_slash f ++ [""]) as ->
      by exact (split_slash_app f "").
    rewrite string_app_assoc.
    rewrite (split_slash_app f name), (split_slash_segment name Hslash).
    by rewrite removelast_last.
  - exists (P +:+ "/"). rewrite string_app_assoc. split; [done|].
    split; [right; apply endswith_app|]. intros _.
    by rewrite (split_slash_app P name), (split_slash_segment name Hslash).
Qed.

Lemma stat_entry (P name : string) (entries : list (string * node)) :
  stat root P = Some (Dir entries) →
  entry_name name →
  stat root (os_path_join P name) = child name entries.
Proof.
  intros Hstat Hname.
  destruct (os_path_join_entry P name Hname) as (front & Hjoin & _ & Hsplit).
  unfold stat in *.
  destruct (String.eqb_spec P "") as [|HP]; [done|].
  rewrite (Hsplit HP).
  assert (String.eqb (os_path_join P name) "" = false) as ->.
  { apply String.eqb_neq. rewrite Hjoin. apply string_app_not_empty.
    destruct Hname as ([_ Hpart] & _). by destruct name. }
  rewrite (walk_app_name _ _ _ _ Hname).
  destruct (endswith P "/") eqn:Hends; [|by rewrite Hstat].
  apply endswith_inv in Hends as [f ->].
  assert (split_slash (f +:+ "/") = split_slash f ++ [""]) as Hsplit_f
    by exact (split_slash_app f "").
  rewrite Hsplit_f in Hstat |- *. rewrite removelast_last.
  apply (walk_app_empties_inv _ [""]) in Hstat as [-> _];
    [done | by constructor | done].
Qed.

Lemma child_of_entry (name : string) (x : node) (entries : list (string * node)) :
  NoDup entries.*1 → (name, x) ∈ entries → child name entries = Some x.
Proof.
  induction entries as [|[n y] entries IH]; intros Hnodup Hin.
  - by apply elem_of_nil in Hin.
  - apply NoDup_cons in Hnodup as [Hfresh Hnodup]. simpl.
    apply elem_of_cons in Hin as [[= -> ->]|Hin].
    + by rewrite String.eqb_refl.
    + destruct (String.eqb_spec name n) as [->|_]; [|by apply IH].
      destruct Hfresh. apply list_elem_of_fmap. by exists (n, x).
Qed.

Lemma fnmatch_star (name : string) : fnmatch "*" name = true.
Proof.
  cbn [fnmatch]. change (Ascii.eqb "*" "*") with true. cbn iota.
  induction name as [|c name IH]; [done|].
  simpl in *. by rewrite IH.
Qed.

Lemma fnmatch_sub_visible (name : string) :
  fnmatch "sub-*" name = true → ishidden name = false.
Proof.
  destruct name as [|c name]; [done|].
  cbn [fnmatch ishidden head_is].
  change (Ascii.eqb "s" "*") with false. cbn iota.
  change (Ascii.eqb "s" "?") with false. cbn [orb].
  destruct (Ascii.eqb_spec "s" c) as [<-|]; [done|]. done.
Qed.

Lemma listdir_directory (P : string) (dironly : bool)
    (entries : list (string * node)) :
  stat root P = Some (Dir entries) →
  listdir root P dironly
  = (List.filter (λ e, negb dironly || is_dir_node e.2) entries).*1.
Proof.
  intros Hstat. unfold listdir.
  destruct (String.eqb_spec P "") as [->|_]; [done|]. by rewrite Hstat.
Qed.

Lemma listdir_no_directory (P : string) (dironly : bool) :
  P ≠ "" →
  (∀ entries, stat root P ≠ Some (Dir entries)) →
  listdir root P dironly = [].
Proof.
  intros HP Hstat. unfold listdir.
  apply String.eqb_neq in HP as ->.
  destruct (stat root P) as [[| |entries]|]; try done. by destruct (Hstat entries).
Qed.

End TreeListing.

Section TreePartition.
Import TreeFS.
Variable root : node.

Lemma filter_implied {A : Type} (f g : A → bool) (l : list A) :
  (∀ x, f x = true → g x = true) →
  List.filter f (List.filter g l) = List.filter f l.
Proof.
  intros Himp. induction l as [|x l IH]; [done|]. simpl.
  destruct (g x) eqn:Hg; simpl; [by rewrite IH|].
  destruct (f x) eqn:Hf; [|done].
  apply Himp in Hf. congruence.
Qed.

Lemma bind_singletons {A B : Type} (f : A → list B) (g : A → B) (l : list A) :
  (∀ x, x ∈ l → f x = [g x]) → l ≫= f = g <$> l.
Proof.
  induction l as [|x l IH]; intros Hf; [done|]. csimpl.
  rewrite (Hf x) by apply list_elem_of_here.
  rewrite IH; [done|]. intros y Hy. apply Hf. by apply list_elem_of_further.
Qed.

Lemma glob1_sub (P : string) (entries : list (string * node)) :
  stat root P = Some (Dir entries) →
  glob1 root P "sub-*" true = subject_directories entries.
Proof.
  intros Hstat. unfold glob1, subject_directories, child_directories.
  rewrite (listdir_directory _ _ _ _ Hstat). cbn [ishidden head_is].
  change (Ascii.eqb "." "s") with false. cbn iota. cbn [negb orb].
  apply filter_implied. intros x Hx.
  by rewrite (fnmatch_sub_visible _ Hx).
Qed.

Lemma subject_directories_entry (name : string) (entries : list (string * node)) :
  name ∈ subject_directories entries →
  fnmatch "sub-*" name = true ∧
  ∃ x, (name, x) ∈ entries ∧ is_dir_node x = true.
Proof.
  unfold subject_directories, child_directories.
  intros Hin. apply list_elem_of_In, filter_In in Hin as [Hin Hmatch].
  split; [done|].
  apply list_elem_of_In, list_elem_of_fmap in Hin as ([n x] & -> & Hin).
  apply list_elem_of_In, filter_In in Hin as [Hin Hdir].
  exists x. split; [by apply list_elem_of_In | done].
Qed.

Lemma entries_ok_name (name : string) (x : node) (entries : list (string * node)) :
  entries_ok entries → (name, x) ∈ entries → entry_name name.
Proof.
  intros [_ Hnames] Hin. rewrite Forall_forall in Hnames. apply Hnames.
  apply list_elem_of_fmap. by exists (name, x).
Qed.

(** The subject directories found under a root that is a directory of the
    tree: its sub-directories whose names match the pattern, each with the
    root's path before it and a separator after it. *)
Lemma tree_subjects_found (bids_dir : string) (entries : list (string * node)) :
  has_magic bids_dir = false →
  stat root (normalized bids_dir) = Some (Dir entries) →
  entries_ok entries →
  subjects_of (tree_host root) bids_dir =
    (λ name, os_path_join (parent_path (normalized bids_dir)) name +:+ "/")
      <$> subject_directories entries.
Proof.
  intros Hmagic Hstat Hok. rewrite (tree_subjects root _ Hmagic).
  destruct (normalized_ends bids_dir) as [front HD].
  rewrite HD in Hstat |- *. apply stat_parent_path in Hstat.
  set (P := parent_path (front +:+ "/")) in *.
  rewrite (glob1_sub _ _ Hstat).
  rewrite (bind_singletons _ (λ dirname, dirname +:+ "/")).
  { by rewrite <- list_fmap_compose. }
  intros dirname Hin.
  apply list_elem_of_fmap in Hin as (name & -> & Hin).
  apply subject_directories_entry in Hin as (_ & x & Hin & Hdir).
  pose proof (entries_ok_name _ _ _ Hok Hin) as Hname.
  unfold glob0. cbn [String.eqb negb]. unfold isdir.
  rewrite (stat_entry root _ _ _ Hstat Hname).
  rewrite (child_of_entry _ _ _ (proj1 Hok) Hin).
  destruct x; try done. csimpl. f_equal.
  destruct (os_path_join_entry P name Hname) as (f & Hjoin & _ & _).
  unfold os_path_join at 1. cbn [head_is].
  destruct Hname as ([Hslash Hpart] & _).
  rewrite Hjoin, (endswith_segment f name Hslash) by (by destruct name).
  destruct (String.eqb_spec (f +:+ name) "") as [Heq|_]; [|done].
  apply string_app_not_empty in Heq; [done | by destruct name].
Qed.

(** A root that is no directory, or a directory none of whose
    sub-directories matches the pattern, gives the error. *)
Lemma tree_no_subject_directory (bids_dir : string) :
  has_magic bids_dir = false →
  (∀ entries, stat root (normalized bids_dir) = Some (Dir entries) →
              subject_directories entries = []) →
  build_subject_paths (tree_host root) bids_dir =
    Raised (ValueError
      ("Couldn't find any subjects in the specified directory:" +:+ newline
       +:+ search_pattern bids_dir)).
Proof.
  intros Hmagic Hnone.
  assert (subjects_of (tree_host root) bids_dir = []) as Hsubjects.
  { rewrite (tree_subjects root _ Hmagic).
    destruct (normalized_ends bids_dir) as [front HD].
    rewrite HD in Hnone |- *.
    set (P := parent_path (front +:+ "/")) in *.
    destruct (stat root P) as [[| |entries]|] eqn:Hstat.
    4: { unfold glob1. rewrite listdir_no_directory; [done| |by rewrite Hstat].
         apply parent_path_not_empty. }
    1,2: unfold glob1; rewrite listdir_no_directory;
         [done | apply parent_path_not_empty | by rewrite Hstat].
    rewrite (glob1_sub _ _ Hstat), Hnone; [done|].
    by apply stat_parent_path. }
  by rewrite build_subject_paths_unfold, Hsubjects.
Qed.

Lemma plain_path_no_magic (bids_dir : string) :
  plain_path bids_dir = true → has_magic bids_dir = false.
Proof.
  unfold plain_path. destruct (has_magic bids_dir); [discriminate | done].
Qed.

(** C2, as amended.  On a directory tree, for a root path that holds no
    wildcard character, no NUL character and no surrogate: when the root
    directory has no sub-directory whose name matches the subject pattern
    (or the path names no directory), [build_subject_paths] raises its
    error ([ValueError]), whose message ends with the pattern that was
    searched, the root given being the start of that pattern; no manifest
    is returned. *)
Theorem no_subject_directory_raises (bids_dir : string) :
  plain_path bids_dir = true →
  (∀ entries, stat root (normalized bids_dir) = Some (Dir entries) →
              subject_directories entries = []) →
  build_subject_paths (tree_host root) bids_dir =
    Raised (ValueError
      ("Couldn't find any subjects in the specified directory:" +:+ newline
       +:+ search_pattern bids_dir)) ∧
  String.prefix bids_dir (search_pattern bids_dir) = true ∧
  ∀ m, build_subject_paths (tree_host root) bids_dir ≠ Returned m.
Proof.
  intros Hplain Hnone.
  pose proof (tree_no_subject_directory bids_dir
                (plain_path_no_magic _ Hplain) Hnone) as Hraised.
  split; [exact Hraised|]. split; [apply search_pattern_prefix|].
  intros m. rewrite Hraised. discriminate.
Qed.

End TreePartition.

Section TreeManifest.
Import TreeFS.
Variable root : node.

Lemma tree_children_listing (bids_dir : string) :
  has_magic bids_dir = false →
  glob root (normalized bids_dir +:+ "*") false =
    os_path_join (parent_path (normalized bids_dir))
      <$> glob1 root (parent_path (normalized bids_dir)) "*" false.
Proof.
  intros Hmagic.
  pose proof (has_magic_normalized _ Hmagic) as HD.
  destruct (normalized_ends bids_dir) as [front HDf].
  set (D := normalized bids_dir) in *.
  unfold glob.
  assert (String.eqb (D +:+ "*") "" = false) as ->.
  { apply String.eqb_neq. by apply string_app_not_empty. }
  cbn [andb orb iglob].
  rewrite HDf, split_children_pattern by done. rewrite <- HDf.
  rewrite has_magic_app, HD. cbn [orb negb].
  change (has_magic "*") with true. cbn [negb].
  assert (String.eqb (parent_path D) "" = false) as ->.
  { apply String.eqb_neq. rewrite HDf. apply parent_path_not_empty. }
  rewrite (has_magic_parent_path _ HD).
  destruct (negb _ && false) eqn:Hcond; [by rewrite andb_false_r in Hcond|].
  change ([parent_path D] ≫= ?f) with (f (parent_path D) ++ []).
  by rewrite app_nil_r.
Qed.

Lemma filter_isfile_entries (P : string) (entries l : list (string * node)) :
  stat root P = Some (Dir entries) →
  entries_ok entries →
  l ⊆ entries →
  List.filter (isfile root)
    (os_path_join P <$> List.filter (λ x, negb (ishidden x)) l.*1)
  = os_path_join P <$> visible_files l.
Proof.
  intros Hstat Hok. unfold visible_files.
  induction l as [|[name x] l IH]; intros Hsub; [done|].
  assert ((name, x) ∈ entries) as Hin by (apply Hsub, list_elem_of_here).
  assert (l ⊆ entries) as Hl
    by (intros e He; by apply Hsub, list_elem_of_further).
  specialize (IH Hl).
  rewrite fmap_cons. cbn [List.filter fst snd].
  destruct (ishidden name) eqn:Hhidden; cbn [negb].
  - rewrite andb_false_r. exact IH.
  - rewrite andb_true_r, fmap_cons. cbn [List.filter]. unfold isfile at 1.
    rewrite (stat_entry root _ _ _ Hstat (entries_ok_name _ _ _ Hok Hin)).
    rewrite (child_of_entry _ _ _ (proj1 Hok) Hin).
    destruct x; rewrite ?fmap_cons, IH; done.
Qed.

Lemma filter_all {A : Type} (f : A → bool) (l : list A) :
  (∀ x, f x = true) → List.filter f l = l.
Proof.
  intros Hf. induction l as [|x l IH]; [done|]. simpl. by rewrite Hf, IH.
Qed.

Lemma glob1_star (P : string) (entries : list (string * node)) :
  stat root P = Some (Dir entries) →
  glob1 root P "*" false = List.filter (λ x, negb (ishidden x)) entries.*1.
Proof.
  intros Hstat. unfold glob1. rewrite (listdir_directory _ _ _ _ Hstat).
  cbn [ishidden head_is]. change (Ascii.eqb "." "*") with false. cbn iota.
  cbn [negb orb].
  rewrite (filter_all (fnmatch "*")) by apply fnmatch_star.
  by rewrite (filter_all (λ _, true)).
Qed.


(** The root-level files listed on a tree: the regular files of the root
    directory whose names do not start with a dot. *)
Lemma tree_root_files (bids_dir : string) (entries : list (string * node)) :
  has_magic bids_dir = false →
  stat root (normalized bids_dir) = Some (Dir entries) →
  entries_ok entries →
  listed_root_files (tree_host root) bids_dir =
    os_path_join (parent_path (normalized bids_dir)) <$> visible_files entries.
Proof.
  intros Hmagic Hstat Hok. unfold listed_root_files. cbn [glob_glob tree_host].
  rewrite (tree_children_listing _ Hmagic).
  destruct (normalized_ends bids_dir) as [front HD].
  rewrite HD in Hstat |- *. apply stat_parent_path in Hstat.
  rewrite (glob1_star _ _ Hstat).
  by apply (filter_isfile_entries _ entries).
Qed.

Lemma NoDup_child_directories (entries : list (string * node)) :
  NoDup entries.*1 → NoDup (subject_directories entries).
Proof.
  intros Hnodup. unfold subject_directories, child_directories.
  apply NoDup_ListNoDup, List.NoDup_filter, NoDup_ListNoDup.
  induction entries as [|[name x] entries IH]; [constructor|].
  apply NoDup_cons in Hnodup as [Hfresh Hnodup]. simpl.
  destruct (is_dir_node x); [|by apply IH].
  csimpl. apply NoDup_cons. split; [|by apply IH].
  intros Hin. apply Hfresh.
  apply list_elem_of_fmap in Hin as ([n y] & -> & Hin).
  apply list_elem_of_In, filter_In in Hin as [Hin _].
  apply list_elem_of_fmap. exists (n, y). by rewrite list_elem_of_In.
Qed.

(** The name of the path of a subject directory is the directory's name. *)
Lemma subject_path_name (P name : string) :
  entry_name name →
  PurePath_name (os_path_join P name +:+ "/") = name.
Proof.
  intros Hname.
  destruct (os_path_join_entry P name Hname) as (front & -> & Hfront & _).
  rewrite string_app_assoc.
  apply PurePath_name_directory; [apply Hname | done].
Qed.

Lemma foldl_add_subject_other (h : host) (root_files subs : list string)
    (m0 : gmap string (list string)) (label : string) :
  label ∉ PurePath_name <$> subs →
  foldl (add_subject h root_files) m0 subs !! label = m0 !! label.
Proof.
  revert m0. induction subs as [|sub subs IH]; intros m0 Hnot; [done|].
  simpl. rewrite IH.
  - unfold add_subject. rewrite lookup_insert_ne; [done|].
    intros Heq. apply Hnot. rewrite fmap_cons, Heq. apply list_elem_of_here.
  - intros Hin. apply Hnot. rewrite fmap_cons. by apply list_elem_of_further.
Qed.

Lemma foldl_add_subject_distinct (h : host) (root_files subs : list string)
    (m0 : gmap string (list string)) (sub : string) :
  NoDup (PurePath_name <$> subs) →
  sub ∈ subs →
  foldl (add_subject h root_files) m0 subs !! PurePath_name sub
  = Some (subject_files h sub ++ root_files).
Proof.
  revert m0. induction subs as [|sub' subs IH]; intros m0 Hnodup Hin.
  - by apply elem_of_nil in Hin.
  - rewrite fmap_cons in Hnodup. apply NoDup_cons in Hnodup as [Hfresh Hnodup].
    apply elem_of_cons in Hin as [->|Hin]; simpl; [|by apply IH].
    rewrite foldl_add_subject_other by done.
    unfold add_subject. by rewrite lookup_insert_eq.
Qed.

(** The manifest of a tree: its keys are the names of the sub-directories
    of the root that match the pattern, and the list under each of them is
    the files listed below that directory followed by the root's regular
    files whose names do not start with a dot. *)
Lemma tree_manifest (bids_dir : string) (entries : list (string * node))
    (m : gmap string (list string)) :
  has_magic bids_dir = false →
  stat root (normalized bids_dir) = Some (Dir entries) →
  entries_ok entries →
  build_subject_paths (tree_host root) bids_dir = Returned m →
  (∀ key, is_Some (m !! key) ↔ key ∈ subject_directories entries) ∧
  (∀ name, name ∈ subject_directories entries →
     m !! name =
       Some (subject_files (tree_host root)
               (os_path_join (parent_path (normalized bids_dir)) name +:+ "/")
             ++ (os_path_join (parent_path (normalized bids_dir))
                   <$> visible_files entries))).
Proof.
  intros Hmagic Hstat Hok Hm. apply build_subject_paths_inv in Hm as ->.
  rewrite (tree_root_files _ _ Hmagic Hstat Hok).
  rewrite (tree_subjects_found root _ _ Hmagic Hstat Hok).
  set (P := parent_path (normalized bids_dir)).
  set (files := os_path_join P <$> visible_files entries).
  assert (∀ name, name ∈ subject_directories entries → entry_name name)
    as Hnames.
  { intros name Hin.
    apply subject_directories_entry in Hin as (_ & x & Hin & _).
    by eapply entries_ok_name. }
  assert (PurePath_name <$> ((λ name, os_path_join P name +:+ "/")
                               <$> subject_directories entries)
          = subject_directories entries) as Hlabels.
  { rewrite <- list_fmap_compose. rewrite <- (list_fmap_id (subject_directories entries)) at 2.
    apply list_fmap_ext. intros i name Hin. simpl.
    apply subject_path_name, Hnames. by eapply list_elem_of_lookup_2. }
  split.
  - intros key. split.
    + intros [fs Hlookup].
      apply foldl_add_subject_lookup in Hlookup as [Hempty|Hsub].
      { by rewrite lookup_empty in Hempty. }
      destruct Hsub as (sub & Hin & <- & _).
      apply list_elem_of_fmap in Hin as (name & -> & Hin).
      by rewrite subject_path_name by by apply Hnames.
    + intros Hin.
      rewrite <- (subject_path_name P key) by by apply Hnames.
      apply foldl_add_subject_key, list_elem_of_fmap. eauto.
  - intros name Hin.
    rewrite <- (subject_path_name P name) at 1 by by apply Hnames.
    apply foldl_add_subject_distinct.
    + rewrite Hlabels. apply NoDup_child_directories, Hok.
    + apply list_elem_of_fmap. eauto.
Qed.

End TreeManifest.

(** ** The partition of a sample dataset *)

Lemma sample_dataset_entries :
  ∃ entries,
    TreeFS.stat Samples.dataset (normalized "ds") = Some (TreeFS.Dir entries) ∧
    entries_ok entries ∧
    subject_directories entries = ["sub-01"; "sub-02"] ∧
    visible_files entries = ["dataset_description.json"; "README"].
Proof.
  eexists. split; [vm_compute; reflexivity|].
  split; [|split; vm_compute; reflexivity].
  split.
  - cbn [fmap list_fmap fst]. repeat (apply NoDup_cons; split);
      [intros H;
       repeat (apply elem_of_cons in H as [H|H]; [discriminate|]);
       by apply elem_of_nil in H .. | apply NoDup_nil_2].
  - repeat constructor; discriminate.
Qed.

(** The manifest of the sample dataset, by the description of the
    manifests of trees. *)
Lemma sample_dataset_manifest (m : gmap string (list string)) :
  build_subject_paths (TreeFS.tree_host Samples.dataset) "ds" = Returned m →
  (∀ key, is_Some (m !! key) ↔ key ∈ ["sub-01"; "sub-02"]) ∧
  m !! "sub-02" = Some ["ds/sub-02/sub-02_scans.tsv";
                        "ds/dataset_description.json"; "ds/README"].
Proof.
  destruct sample_dataset_entries as (entries & Hstat & Hok & Hsubjects & Hfiles).
  intros Hm.
  destruct (tree_manifest Samples.dataset "ds" entries m eq_refl Hstat Hok Hm)
    as [Hkeys Hlists].
  rewrite Hsubjects in Hkeys, Hlists. split; [exact Hkeys|].
  rewrite (Hlists "sub-02") by (apply list_elem_of_further, list_elem_of_here).
  rewrite Hfiles. vm_compute. reflexivity.
Qed.


Lemma trailing_separator_invariant_example :
  endswith "ds" "/" = false ∧
  build_subject_paths (TreeFS.tree_host Samples.dataset) ("ds" +:+ "/")
  = build_subject_paths (TreeFS.tree_host Samples.dataset) "ds".
Proof.
  split; [reflexivity|].
  apply (trailing_separator_invariant (TreeFS.tree_host Samples.dataset) "ds").
  reflexivity.
Defined.

(** The directory "ds/derivatives" holds one file and no subject
    directory. *)
Lemma no_subject_directory_raises_example :
  plain_path "ds/derivatives" = true ∧
  TreeFS.stat Samples.dataset (normalized "ds/derivatives")
    = Some (TreeFS.Dir [("notes.txt", TreeFS.File)]) ∧
  subject_directories [("notes.txt", TreeFS.File)] = [] ∧
  build_subject_paths (TreeFS.tree_host Samples.dataset) "ds/derivatives" =
    Raised (ValueError
      ("Couldn't find any subjects in the specified directory:" +:+ newline
       +:+ "ds/derivatives/sub-*/")).
Proof.
  split; [reflexivity|]. split; [reflexivity|]. split; [reflexivity|].
  refine (proj1 (no_subject_directory_raises Samples.dataset
                   "ds/derivatives" _ _)).
  - reflexivity.
  - intros entries. vm_compute. intros [= <-]. reflexivity.
Defined.

(** C2, as stated, fails: the root "d?" is a directory of the tree with
    one file and no sub-directory at all, yet no error is raised.  The
    root is part of the pattern handed to [glob], where its question mark
    stands for any character: the subject of the directory "d1" next to it
    is found, and a manifest is returned. *)
Lemma wildcard_root_finds_other_subjects :
  TreeFS.stat Samples.question_mark_directory (normalized "d?")
    = Some (TreeFS.Dir [("notes.txt", TreeFS.File)]) ∧
  subject_directories [("notes.txt", TreeFS.File)] = [] ∧
  subjects_of (TreeFS.tree_host Samples.question_mark_directory) "d?"
    = ["d1/sub-01/"] ∧
  ∃ m,
    build_subject_paths (TreeFS.tree_host Samples.question_mark_directory) "d?"
      = Returned m ∧
    m !! "sub-01" = Some ["d1/sub-01/scan.json"; "d?/notes.txt"; "d1/README"].
Proof.
  split; [reflexivity|]. split; [reflexivity|].
  split; [vm_compute; reflexivity|].
  eexists. split.
  - apply build_subject_paths_found. vm_compute. discriminate.
  - vm_compute. reflexivity.
Qed.

Lemma root_files_follow_subject_files_example :
  subjects_of (TreeFS.tree_host Samples.dataset) "ds" = ["ds/sub-01/"; "ds/sub-02/"] ∧
  ∃ m,
    build_subject_paths (TreeFS.tree_host Samples.dataset) "ds" = Returned m ∧
    (∀ label files,
       m !! label = Some files →
       ∃ sub,
         sub ∈ subjects_of (TreeFS.tree_host Samples.dataset) "ds" ∧
         PurePath_name sub = label ∧
         files = subject_files (TreeFS.tree_host Samples.dataset) sub
                 ++ listed_root_files (TreeFS.tree_host Samples.dataset) "ds").
Proof.
  split; [vm_compute; reflexivity|].
  destruct (root_files_follow_subject_files
              (TreeFS.tree_host Samples.dataset) "ds") as (m & Hm & _ & Hfiles).
  - vm_compute. discriminate.
  - exists m. split; [exact Hm | exact Hfiles].
Defined.

(** C5, as stated, fails: the root of the sample dataset has three regular
    files, yet the list of subject "sub-02" ends with two of them only;
    ".bidsignore", whose name starts with a dot, is not listed. *)
Lemma hidden_root_file_is_left_out :
  regular_children Samples.dataset "ds"
    = ["dataset_description.json"; ".bidsignore"; "README"] ∧
  ∃ m,
    build_subject_paths (TreeFS.tree_host Samples.dataset) "ds" = Returned m ∧
    m !! "sub-02" = Some ["ds/sub-02/sub-02_scans.tsv";
                          "ds/dataset_description.json"; "ds/README"] ∧
    ¬ ∃ front,
        ["ds/sub-02/sub-02_scans.tsv"; "ds/dataset_description.json"; "ds/README"]
        = front ++ (TreeFS.os_path_join "ds"
                      <$> regular_children Samples.dataset "ds").
Proof.
  split; [vm_compute; reflexivity|].
  eexists. split; [|split].
  - apply build_subject_paths_found. vm_compute. discriminate.
  - vm_compute. reflexivity.
  - intros [front H].
    assert (front = []) as ->.
    { apply (f_equal length) in H. rewrite length_app in H.
      destruct front; [done | simpl in H; lia]. }
    vm_compute in H. discriminate H.
Qed.

Lemma manifest_keyed_by_base_name_example :
  ∃ m,
    build_subject_paths (TreeFS.tree_host Samples.dataset) "ds" = Returned m ∧
    PurePath_name "ds/sub-01/" = "sub-01" ∧
    is_Some (m !! "sub-01") ∧
    m !! "ds/sub-01/" = None.
Proof.
  assert (subjects_of (TreeFS.tree_host Samples.dataset) "ds" ≠ []) as Hsome
    by (vm_compute; discriminate).
  pose proof (build_subject_paths_found (TreeFS.tree_host Samples.dataset)
                "ds" Hsome) as Hm.
  eexists. split; [exact Hm|].
  apply (proj2 (manifest_keyed_by_base_name
                  (TreeFS.tree_host Samples.dataset) "ds" _ Hm) "ds/" "sub-01").
  - vm_compute. apply list_elem_of_here.
  - split; reflexivity.
  - right. reflexivity.
Defined.

(** * Further properties of the module *)

(** ** [build_validator_call] *)

(** X1.  The command is the validator's name, then the path as one
    argument, unchanged whatever it holds, then the two fixed options
    "--verbose" and "--json"; the option that ignores the NIfTI headers is the last argument exactly when
    [ignore_headers] is set, and asking for it only adds that argument. *)
Theorem validator_call_arguments (path : string) (ignore_headers : bool) :
  build_validator_call path ignore_headers !! 0 = Some "bids-validator" ∧
  build_validator_call path ignore_headers !! 1 = Some path ∧
  build_validator_call path ignore_headers !! 2 = Some "--verbose" ∧
  build_validator_call path ignore_headers !! 3 = Some "--json" ∧
  build_validator_call path false
    = ["bids-validator"; path; "--verbose"; "--json"] ∧
  (last (build_validator_call path ignore_headers)
     = Some "--ignoreNiftiHeaders" ↔ ignore_headers = true) ∧
  build_validator_call path true
    = build_validator_call path false ++ ["--ignoreNiftiHeaders"] ∧
  length (build_validator_call path ignore_headers)
    = if ignore_headers then 5 else 4.
Proof.
  destruct ignore_headers; repeat split; try done.
Qed.

(** ** More on [parse_issue] *)

Lemma get_raised (obj : value) (k : string) (dv : value) (e : exn) :
  get obj k dv = Raised e → e = AttributeError ∧ is_mapping obj = false.
Proof. destruct obj; simpl; try discriminate; by intros [= <-]. Qed.

Lemma get_not_mapping (obj : value) (k : string) (dv : value) :
  is_mapping obj = false → get obj k dv = Raised AttributeError.
Proof. by destruct obj. Qed.

Lemma all_str_forallb (items : list value) :
  forallb is_str items = true → ∃ ss, items = VStr <$> ss.
Proof.
  induction items as [|x items IH]; [by exists []|].
  simpl. intros H. apply andb_true_iff in H as [Hx Hitems].
  destruct (IH Hitems) as [ss ->]. destruct x; try done.
  by exists (s :: ss).
Qed.

Lemma all_str_not_forallb (items : list value) :
  forallb is_str items = false → all_str items = Raised TypeError.
Proof.
  induction items as [|x items IH]; [done|].
  simpl. destruct x; try done. simpl. intros H.
  by rewrite (IH H).
Qed.

Lemma iterate_mapping (d : pydict) :
  iterate (VDict d) = Returned (VStr <$> d.*1).
Proof. simpl. by rewrite <- list_fmap_compose. Qed.

(** What [str.join] gives for each kind of object. *)
Lemma join_cases (sep : string) (v : value) :
  match v with
  | VList items =>
      if forallb is_str items
      then ∃ ss, items = VStr <$> ss ∧ join sep v = Returned (join_strings sep ss)
      else join sep v = Raised TypeError
  | VStr s => join sep v = Returned (join_strings sep (characters s))
  | VDict d => join sep v = Returned (join_strings sep d.*1)
  | _ => join sep v = Raised TypeError
  end.
Proof.
  destruct v as [| | | |s|items|d]; try reflexivity.
  - unfold join. change (iterate (VStr s)) with (Returned (VStr <$> characters s)).
    by rewrite bind_returned, all_str_strings.
  - destruct (forallb is_str items) eqn:Hall.
    + destruct (all_str_forallb _ Hall) as [ss ->].
      exists ss. split; [done | apply join_list_of_strings].
    + unfold join. change (iterate (VList items)) with (Returned items).
      by rewrite bind_returned, (all_str_not_forallb _ Hall).
  - unfold join. rewrite iterate_mapping.
    by rewrite bind_returned, all_str_strings.
Qed.

Lemma join_joinable (sep : string) (v : value) :
  if joinable v then ∃ s, join sep v = Returned s
  else join sep v = Raised TypeError.
Proof.
  pose proof (join_cases sep v) as H.
  destruct v; simpl in *; eauto.
  destruct (forallb is_str items); [|done].
  destruct H as (ss & _ & H). eauto.
Qed.

Lemma parse_issue_joined (d : pydict) (affects : string) :
  join ", " (field "affects" d (VList [])) = Returned affects →
  parse_issue (VDict d) =
    Returned (record_of (field "code" d (VStr ""))
                (field "severity" d (VStr ""))
                (field "location" d (VStr ""))
                affects
                (field "rule" d (VStr ""))).
Proof. intros H. by rewrite parse_issue_dict, H. Qed.

(** X2.  The two ways [parse_issue] fails, and no other: an issue that is
    no mapping raises [AttributeError]; a mapping whose "affects" entry is
    neither a sequence of strings, a string nor a mapping raises
    [TypeError]; every other issue gives a record. *)
Theorem parse_issue_outcomes (issue : value) :
  match issue with
  | VDict d =>
      if joinable (field "affects" d (VList []))
      then ∃ record, parse_issue issue = Returned record
      else parse_issue issue = Raised TypeError
  | _ => parse_issue issue = Raised AttributeError
  end.
Proof.
  destruct issue as [| | | | | |d]; try reflexivity.
  rewrite parse_issue_dict.
  pose proof (join_joinable ", " (field "affects" d (VList []))) as H.
  destruct (joinable _).
  - destruct H as [s ->]. rewrite bind_returned. eauto.
  - by rewrite H.
Qed.

(** X3.  An "affects" entry that is a single string is taken character by
    character: the record's "affects" is the characters of the string,
    joined with a comma and a space. *)
Theorem affects_string_is_split (issue : pydict) (s : string) :
  field "affects" issue (VList []) = VStr s →
  parse_issue (VDict issue) =
    Returned (record_of (field "code" issue (VStr ""))
                (field "severity" issue (VStr ""))
                (field "location" issue (VStr ""))
                (join_strings ", " (characters s))
                (field "rule" issue (VStr ""))).
Proof.
  intros Haff. apply parse_issue_joined. rewrite Haff.
  exact (join_cases ", " (VStr s)).
Qed.

Lemma affects_string_is_split_example :
  parse_issue (VDict [("code", VStr "A"); ("affects", VStr "sub-01")]) =
    Returned (record_of (VStr "A") (VStr "") (VStr "") "s, u, b, -, 0, 1"
                (VStr "")).
Proof.
  apply (affects_string_is_split
           [("code", VStr "A"); ("affects", VStr "sub-01")] "sub-01").
  reflexivity.
Defined.

(** X4.  The record depends on the five entries only: two issue mappings
    that agree on code, severity, location, affects and rule give the same
    outcome, whatever else they hold and in whatever order. *)
Theorem parse_issue_reads_five_entries (issue1 issue2 : pydict) :
  Forall (λ k, dict_lookup k issue1 = dict_lookup k issue2) issue_columns →
  parse_issue (VDict issue1) = parse_issue (VDict issue2).
Proof.
  intros Hsame. rewrite !parse_issue_dict. unfold field.
  repeat (apply Forall_cons in Hsame as [-> Hsame]). done.
Qed.

Lemma parse_issue_reads_five_entries_example :
  parse_issue (VDict [("code", VStr "A"); ("severity", VStr "error")]) =
  parse_issue (VDict [("subCode", VStr "x"); ("severity", VStr "error");
                      ("line", VInt 3); ("code", VStr "A")]).
Proof.
  apply parse_issue_reads_five_entries. repeat constructor.
Defined.

(** X5.  Every record that [parse_issue] returns has the five keys code,
    severity, location, affects, rule, in this order, and its "affects"
    entry is a string, whatever the issue was. *)
Theorem parse_issue_record_shape (issue : value) (record : pydict) :
  parse_issue issue = Returned record →
  record.*1 = issue_columns ∧
  ∃ affects, dict_lookup "affects" record = Some (VStr affects).
Proof.
  intros H. apply parse_issue_inv in H as (d & affects & _ & _ & ->).
  split; [reflexivity | by exists affects].
Qed.

Lemma parse_issue_record_shape_example :
  [("code", VInt 7); ("severity", VStr ""); ("location", VStr "");
   ("affects", VStr "k1, k2"); ("rule", VStr "")].*1 = issue_columns ∧
  ∃ affects,
    dict_lookup "affects"
      [("code", VInt 7); ("severity", VStr ""); ("location", VStr "");
       ("affects", VStr "k1, k2"); ("rule", VStr "")] = Some (VStr affects).
Proof.
  apply (parse_issue_record_shape
           (VDict [("code", VInt 7);
                   ("affects", VDict [("k1", VNone); ("k2", VNone)])])).
  reflexivity.
Defined.

(** X6.  Normalizing a record that [parse_issue] returned keeps its code,
    severity, location and rule, and splits its "affects" string into
    characters that it joins again: the function is not idempotent on a
    record whose "affects" has two characters or more. *)
Theorem parse_issue_again (issue : value) (record : pydict) :
  parse_issue issue = Returned record →
  ∃ code severity location affects rule,
    record = record_of code severity location affects rule ∧
    parse_issue (VDict record) =
      Returned (record_of code severity location
                  (join_strings ", " (characters affects)) rule).
Proof.
  intros H. apply parse_issue_inv in H as (d & affects & _ & _ & ->).
  eexists _, _, _, affects, _. split; [reflexivity|].
  erewrite parse_issue_joined; [reflexivity|].
  exact (join_cases ", " (VStr affects)).
Qed.

Lemma parse_issue_again_example :
  ∃ code severity location affects rule,
    record_of (VStr "A") (VStr "") (VStr "") "x, y" (VStr "")
      = record_of code severity location affects rule ∧
    parse_issue (VDict (record_of (VStr "A") (VStr "") (VStr "") "x, y" (VStr "")))
      = Returned (record_of code severity location
                    (join_strings ", " (characters affects)) rule).
Proof.
  apply (parse_issue_again
           (VDict [("code", VStr "A"); ("affects", VList [VStr "x"; VStr "y"])])).
  reflexivity.
Defined.


(** ** More on [parse_validator_output] *)

Lemma parse_issue_raised (issue : value) (e : exn) :
  parse_issue issue = Raised e → e = AttributeError ∨ e = TypeError.
Proof.
  destruct issue as [| | | | | |d]; try (intros [= <-]; by left).
  rewrite parse_issue_dict.
  pose proof (join_joinable ", " (field "affects" d (VList []))) as H.
  destruct (joinable _).
  - destruct H as [s ->]. discriminate.
  - rewrite H. intros [= <-]. by right.
Qed.

Lemma for_issue_raised (items : list value) (df : DataFrame) (e : exn) :
  for_issue df items = Raised e → e = AttributeError ∨ e = TypeError.
Proof.
  revert df. induction items as [|issue items IH]; intros df; [discriminate|].
  simpl.
  destruct (get issue "severity" VNone) as [sev|e'] eqn:Hget; simpl.
  2: { intros [= <-]. left. by apply get_raised in Hget as [-> _]. }
  destruct (eq_str sev "error").
  - destruct (parse_issue issue) eqn:Hparse; simpl; [apply IH|].
    intros [= <-]. by eapply parse_issue_raised.
  - destruct (eq_str sev "warning"); [|apply IH].
    destruct (parse_issue issue) eqn:Hparse; simpl; [apply IH|].
    intros [= <-]. by eapply parse_issue_raised.
Qed.

Lemma flatten_raised (data : value) (e : exn) :
  flatten data = Raised e → e = AttributeError ∨ e = TypeError.
Proof.
  unfold flatten.
  destruct (get data "issues" (VDict [])) as [issues|e'] eqn:H1; simpl.
  2: { intros [= <-]. left. by apply get_raised in H1 as [-> _]. }
  destruct (get issues "issues" (VList [])) as [l|e'] eqn:H2; simpl.
  2: { intros [= <-]. left. by apply get_raised in H2 as [-> _]. }
  destruct l; simpl; try (intros [= <-]; by right); apply for_issue_raised.
Qed.

(** A loop that returns went through mappings only. *)
Lemma for_issue_mappings (items : list value) (df df' : DataFrame) :
  for_issue df items = Returned df' → ∃ issues, items = VDict <$> issues.
Proof.
  revert df. induction items as [|issue items IH]; intros df; [by exists []|].
  simpl.
  destruct (get issue "severity" VNone) as [sev|e'] eqn:Hget; [|discriminate].
  apply get_inv in Hget as (d & -> & _). simpl.
  assert (∀ df0, for_issue df0 items = Returned df' →
                 ∃ issues, VDict d :: items = VDict <$> issues) as Hrest.
  { intros df0 H. apply IH in H as [issues ->]. by exists (d :: issues). }
  destruct (eq_str sev "error").
  - destruct (parse_issue (VDict d)); simpl; [apply Hrest | discriminate].
  - destruct (eq_str sev "warning"); [|apply Hrest].
    destruct (parse_issue (VDict d)); simpl; [apply Hrest | discriminate].
Qed.

(** Whatever the payload, a table that is returned is the table of the
    records of some retained issues. *)
Lemma flatten_returned (data : value) (df : DataFrame) :
  flatten data = Returned df →
  ∃ issues records,
    normalize_all (List.filter retained issues) records ∧ df = table_of records.
Proof.
  unfold flatten. intros H.
  apply bind_inv in H as (issues_obj & _ & H).
  apply bind_inv in H as (l & _ & H).
  apply bind_inv in H as (items & _ & H).
  destruct (for_issue_mappings _ _ _ H) as [issues ->].
  apply for_issue_inv in H as (records & Hall & ->).
  exists issues, records. split; [done|].
  apply (foldl_append_record [] records); [constructor|].
  by eapply normalize_all_five_fields.
Qed.

Lemma output_cases (output : string) :
  (Json.loads output = Raised JSONDecodeError ∧
   parse_validator_output output =
     ([("Error parsing JSON: ", JSONDecodeError)], Returned None)) ∨
  (∃ data df,
     Json.loads output = Returned data ∧ flatten data = Returned df ∧
     parse_validator_output output = ([], Returned (Some df))) ∨
  (∃ data e,
     Json.loads output = Returned data ∧ flatten data = Raised e ∧
     parse_validator_output output = ([], Raised e)).
Proof.
  destruct (Json.loads output) as [data|e] eqn:Hloads.
  - right. rewrite (output_decoded _ _ Hloads).
    destruct (flatten data) as [df|e] eqn:Hflat; [left | right]; eauto.
  - left. apply loads_raises_decode_error_only in Hloads as Heq. subst e.
    split; [done|]. unfold parse_validator_output. by rewrite Hloads.
Qed.

(** X7.  The function prints exactly when it returns [None], and it
    returns [None] exactly when the text does not decode: for a text that
    decodes, nothing is printed, and the result is a table or an
    exception, never [None]. *)
Theorem prints_exactly_on_decode_failure (output : string) :
  ((parse_validator_output output).1 ≠ [] ↔
   (parse_validator_output output).2 = Returned None) ∧
  ((parse_validator_output output).2 = Returned None ↔
   Json.loads output = Raised JSONDecodeError) ∧
  ((parse_validator_output output).1 = [] ∨
   (parse_validator_output output).1
     = [("Error parsing JSON: ", JSONDecodeError)]).
Proof.
  destruct (output_cases output)
    as [[Hloads ->]|[(data & df & Hloads & _ & ->)|(data & e & Hloads & _ & ->)]];
    rewrite Hloads; simpl; repeat split; try done; eauto.
Qed.

(** X8.  When an exception leaves the function, the decoder has not
    raised its [JSONDecodeError] (that one is caught); and when the text
    has decoded, the exception is [AttributeError] or [TypeError], and
    nothing has been printed. *)
Theorem escaping_exceptions (output : string) (lines : list line) (e : exn) :
  parse_validator_output output = (lines, Raised e) →
  Json.loads output ≠ Raised JSONDecodeError ∧
  ∀ data, Json.loads output = Returned data →
          lines = [] ∧ (e = AttributeError ∨ e = TypeError).
Proof.
  destruct (output_cases output)
    as [[_ ->]|[(data & df & _ & _ & ->)|(data & e' & Hloads & Hflat & ->)]];
    try discriminate.
  intros [= <- <-]. split; [by rewrite Hloads|].
  intros _ _. split; [done|]. by eapply flatten_raised.
Qed.

Lemma escaping_exceptions_example :
  parse_validator_output Samples.numeric_affects = ([], Raised TypeError) ∧
  Json.loads Samples.numeric_affects ≠ Raised JSONDecodeError.
Proof.
  split; [vm_compute; reflexivity|].
  apply (escaping_exceptions Samples.numeric_affects [] TypeError).
  vm_compute. reflexivity.
Defined.

(** X9.  A decoded payload that is no mapping (a sequence, a string, a
    number, null), or a mapping whose "issues" entry is present and is no
    mapping (null included), makes the function raise [AttributeError]:
    only an absent key is defaulted. *)
Theorem payload_must_be_nested_mappings (output : string) (data : value) :
  Json.loads output = Returned data →
  is_mapping data = false ∨
  (∃ top v, data = VDict top ∧ dict_lookup "issues" top = Some v ∧
            is_mapping v = false) →
  parse_validator_output output = ([], Raised AttributeError).
Proof.
  intros Hloads Hshape. rewrite (output_decoded _ _ Hloads).
  assert (flatten data = Raised AttributeError) as ->; [|done].
  unfold flatten. destruct Hshape as [Hdata|(top & v & -> & Hv & Hmap)].
  - by rewrite (get_not_mapping _ _ _ Hdata).
  - rewrite get_dict, bind_returned. unfold field. rewrite Hv. simpl.
    by rewrite (get_not_mapping _ _ _ Hmap).
Qed.

Lemma payload_must_be_nested_mappings_example :
  parse_validator_output (json_text "{'issues': null}")
    = ([], Raised AttributeError).
Proof.
  apply (payload_must_be_nested_mappings (json_text "{'issues': null}")
           (VDict [("issues", VNone)])).
  - vm_compute. reflexivity.
  - right. exists [("issues", VNone)], VNone. repeat split.
Defined.

Lemma characters_not_empty (c : ascii) (s : string) :
  ∃ x xs, characters (String c s) = x :: xs.
Proof.
  simpl. destruct (characters s) as [|g gs]; [eauto|].
  destruct (head_is is_continuation s); eauto.
Qed.

(** X10.  The inner "issues" entry is iterated as any Python object would
    be: null, a boolean or a number raises [TypeError]; the empty string
    and the empty mapping give the empty table; a string or a mapping that
    is not empty raises [AttributeError], its items being strings. *)
Theorem issue_sequence_kinds
    (output : string) (top inner : pydict) (v : value) :
  Json.loads output = Returned (VDict top) →
  field "issues" top (VDict []) = VDict inner →
  dict_lookup "issues" inner = Some v →
  match v with
  | VNone | VBool _ | VInt _ | VFloat _ =>
      parse_validator_output output = ([], Raised TypeError)
  | VStr EmptyString | VDict [] =>
      parse_validator_output output = ([], Returned (Some empty))
  | VStr (String _ _) | VDict (_ :: _) =>
      parse_validator_output output = ([], Raised AttributeError)
  | VList _ => True
  end.
Proof.
  intros Hloads Hinner Hv. rewrite (output_decoded _ _ Hloads).
  unfold flatten. rewrite get_dict, bind_returned, Hinner.
  rewrite get_dict, bind_returned. unfold field. rewrite Hv.
  change (default (VList []) (Some v)) with v.
  destruct v as [| | | |s|items|d]; try done.
  - destruct s as [|c s]; [done|].
    change (iterate (VStr (String c s)))
      with (Returned (VStr <$> characters (String c s))).
    destruct (characters_not_empty c s) as (x & xs & ->). done.
  - destruct d as [|[k x] d]; done.
Qed.

Lemma issue_sequence_kinds_example :
  parse_validator_output (json_text "{'issues': {'issues': 'none'}}")
    = ([], Raised AttributeError).
Proof.
  apply (issue_sequence_kinds (json_text "{'issues': {'issues': 'none'}}")
           [("issues", VDict [("issues", VStr "none")])]
           [("issues", VStr "none")] (VStr "none"));
    vm_compute; reflexivity.
Defined.

(** X11.  Every table that is returned, whatever the payload, either has
    no column and no row, or has the five columns code, severity,
    location, affects, rule and at least one row; each row has five cells,
    and the cell under affects holds a string. *)
Theorem returned_table_shape
    (output : string) (lines : list line) (df : DataFrame) :
  parse_validator_output output = (lines, Returned (Some df)) →
  lines = [] ∧
  ((columns df = [] ∧ rows df = []) ∨
   (columns df = issue_columns ∧ rows df ≠ [])) ∧
  Forall (λ row, length row = 5 ∧ ∃ affects, row !! 3 = Some (VStr affects))
    (rows df).
Proof.
  destruct (output_cases output)
    as [[_ ->]|[(data & df' & _ & Hflat & ->)|(data & e & _ & _ & ->)]];
    try discriminate.
  intros [= <- <-]. split; [done|].
  apply flatten_returned in Hflat as (issues & records & Hall & ->).
  split.
  - destruct records; [by left | by right].
  - unfold table_of. cbn [rows]. apply Forall_fmap.
    clear -Hall. induction Hall as [|issue record ? ? Hparse _ IH];
      constructor; [|exact IH].
    apply parse_issue_inv in Hparse as (d & affects & _ & _ & ->).
    simpl. eauto.
Qed.

Lemma returned_table_shape_example :
  ∃ df,
    parse_validator_output Samples.four_issues = ([], Returned (Some df)) ∧
    columns df = issue_columns ∧
    Forall (λ row, length row = 5 ∧ ∃ affects, row !! 3 = Some (VStr affects))
      (rows df).
Proof.
  eexists. split; [vm_compute; reflexivity|]. split; [reflexivity|].
  refine (proj2 (proj2 (returned_table_shape Samples.four_issues [] _ _))).
  vm_compute. reflexivity.
Defined.

(** X12.  Flattening goes issue by issue: for two issue sequences whose
    retained issues are written as the validator writes them (string
    entries, affects a sequence of strings), the reports of the first, of
    the second and of the first followed by the second each give a table,
    and the rows of the third table are the rows of the first followed by
    the rows of the second. *)
Theorem rows_of_concatenated_reports
    (output1 output2 output : string) (data1 data2 data : value)
    (issues1 issues2 : list pydict) :
  Json.loads output1 = Returned data1 → report_issues data1 issues1 →
  Json.loads output2 = Returned data2 → report_issues data2 issues2 →
  Json.loads output = Returned data →
  report_issues data (issues1 ++ issues2) →
  Forall typed_issue (List.filter retained issues1) →
  Forall typed_issue (List.filter retained issues2) →
  ∃ df1 df2 df,
    parse_validator_output output1 = ([], Returned (Some df1)) ∧
    parse_validator_output output2 = ([], Returned (Some df2)) ∧
    parse_validator_output output = ([], Returned (Some df)) ∧
    rows df = rows df1 ++ rows df2 ∧
    Forall (Forall (λ x, is_str x = true)) (rows df).
Proof.
  intros Hloads1 Hreport1 Hloads2 Hreport2 Hloads Hreport Htyped1 Htyped2.
  destruct (typed_issues_records _ Htyped1 (filter_retained issues1))
    as (records1 & _ & Hall1 & Hstr1).
  destruct (typed_issues_records _ Htyped2 (filter_retained issues2))
    as (records2 & _ & Hall2 & Hstr2).
  exists (table_of records1), (table_of records2),
    (table_of (records1 ++ records2)).
  split; [|split; [|split; [|split]]].
  - eapply output_returned; [done|]. by eapply flatten_retained.
  - eapply output_returned; [done|]. by eapply flatten_retained.
  - eapply output_returned; [done|].
    apply (flatten_retained _ _ _ Hreport).
    rewrite List.filter_app. by apply Forall2_app.
  - unfold table_of. cbn [rows]. by rewrite fmap_app.
  - unfold table_of. cbn [rows]. apply Forall_fmap, Forall_app. by split.
Qed.

Lemma rows_of_concatenated_reports_example :
  ∃ df1 df2 df,
    parse_validator_output Samples.one_error = ([], Returned (Some df1)) ∧
    parse_validator_output Samples.one_warning = ([], Returned (Some df2)) ∧
    parse_validator_output Samples.error_then_warning
      = ([], Returned (Some df)) ∧
    rows df = rows df1 ++ rows df2 ∧
    rows df =
      [[VStr "A"; VStr "error"; VStr ""; VStr ""; VStr ""];
       [VStr "B"; VStr "warning"; VStr ""; VStr ""; VStr ""]].
Proof.
  pose (i1 := [("severity", VStr "error"); ("code", VStr "A")] : pydict).
  pose (i2 := [("severity", VStr "warning"); ("code", VStr "B")] : pydict).
  destruct (rows_of_concatenated_reports
    Samples.one_error Samples.one_warning Samples.error_then_warning
    (VDict [("issues", VDict [("issues", VList (VDict <$> [i1]))])])
    (VDict [("issues", VDict [("issues", VList (VDict <$> [i2]))])])
    (VDict [("issues", VDict [("issues", VList (VDict <$> [i1; i2]))])])
    [i1] [i2])
    as (df1 & df2 & df & H1 & H2 & H & Hrows & _);
    try (vm_compute; reflexivity);
    try (eexists _, _; repeat split; fail);
    try (cbn; repeat constructor; by exists []).
  exists df1, df2, df. repeat split; try assumption.
  assert (parse_validator_output Samples.error_then_warning
    = ([], Returned (Some
        {| columns := issue_columns;
           rows := [[VStr "A"; VStr "error"; VStr ""; VStr ""; VStr ""];
                    [VStr "B"; VStr "warning"; VStr ""; VStr ""; VStr ""]] |})))
    as Hvalue by (vm_compute; reflexivity).
  rewrite H in Hvalue. by injection Hvalue as ->.
Defined.

(** X13.  Only the "issues" entry of the payload is read: two payload
    mappings with the same "issues" entry, or both without one, give the
    same outcome, whatever their other keys. *)
Theorem other_keys_are_ignored
    (output1 output2 : string) (top1 top2 : pydict) :
  Json.loads output1 = Returned (VDict top1) →
  Json.loads output2 = Returned (VDict top2) →
  dict_lookup "issues" top1 = dict_lookup "issues" top2 →
  parse_validator_output output1 = parse_validator_output output2.
Proof.
  intros Hloads1 Hloads2 Hsame.
  rewrite (output_decoded _ _ Hloads1), (output_decoded _ _ Hloads2).
  unfold flatten. rewrite !get_dict. unfold field. by rewrite Hsame.
Qed.

Lemma other_keys_are_ignored_example :
  parse_validator_output
    (json_text "{'issues': {'issues': [{'severity': 'error'}]}, 'summary': {'n': 1}}")
  = parse_validator_output
      (json_text "{'version': '2.0', 'issues': {'issues': [{'severity': 'error'}]}}").
Proof.
  eapply other_keys_are_ignored; vm_compute; reflexivity.
Defined.

Lemma for_issue_not_mapping (items : list value) (df : DataFrame) :
  Exists (λ item, is_mapping item = false) items →
  ∃ e, for_issue df items = Raised e.
Proof.
  intros Hbad. revert df.
  induction Hbad as [item items Hitem|item items _ IH]; intros df.
  - exists AttributeError. simpl. by rewrite (get_not_mapping _ _ _ Hitem).
  - simpl. destruct (get item "severity" VNone) as [sev|e]; simpl; [|eauto].
    destruct (eq_str sev "error").
    + destruct (parse_issue item); simpl; eauto.
    + destruct (eq_str sev "warning"); [|eauto].
      destruct (parse_issue item); simpl; eauto.
Qed.

(** X14.  One item of the issue sequence that is no mapping makes the
    whole call raise, wherever it stands and whatever its neighbours are:
    no table of the other issues is returned. *)
Theorem one_bad_issue_fails_the_call
    (output : string) (top inner : pydict) (items : list value) :
  Json.loads output = Returned (VDict top) →
  field "issues" top (VDict []) = VDict inner →
  field "issues" inner (VList []) = VList items →
  Exists (λ item, is_mapping item = false) items →
  ∃ e,
    parse_validator_output output = ([], Raised e) ∧
    (e = AttributeError ∨ e = TypeError).
Proof.
  intros Hloads Hinner Hitems Hbad.
  rewrite (output_decoded _ _ Hloads).
  assert (flatten (VDict top) = for_issue empty items) as Hflat.
  { unfold flatten. rewrite get_dict, bind_returned, Hinner.
    by rewrite get_dict, bind_returned, Hitems. }
  destruct (for_issue_not_mapping items empty Hbad) as [e He].
  exists e. rewrite Hflat, He. split; [done|].
  by eapply for_issue_raised.
Qed.

Lemma one_bad_issue_fails_the_call_example :
  ∃ e,
    parse_validator_output Samples.number_among_issues = ([], Raised e) ∧
    (e = AttributeError ∨ e = TypeError).
Proof.
  apply (one_bad_issue_fails_the_call Samples.number_among_issues
           [("issues",
             VDict [("issues", VList [VDict [("severity", VStr "error")];
                                      VInt 5])])]
           [("issues", VList [VDict [("severity", VStr "error")]; VInt 5])]
           [VDict [("severity", VStr "error")]; VInt 5]).
  - vm_compute. reflexivity.
  - reflexivity.
  - reflexivity.
  - apply Exists_cons_tl, Exists_cons_hd. reflexivity.
Defined.

(** ** The catalog and the columns of the table *)

(** X15.  The catalog and the records disagree on two names: of the keys
    of a record that [parse_issue] returns, every one but "affects" has an
    entry in the catalog of [get_val_dictionary]; of the keys of the
    catalog, every one but "subCode" is a key of the record.  Each entry of
    the catalog is a mapping with the single key "Description". *)
Theorem catalog_and_record_keys (issue : value) (record : pydict) :
  parse_issue issue = Returned record →
  Forall (λ col, is_Some (dict_lookup col (get_val_dictionary ())) ↔
                 col ≠ "affects") record.*1 ∧
  Forall (λ key, In key record.*1 ↔ key ≠ "subCode") (get_val_dictionary ()).*1 ∧
  Forall (λ entry, ∃ description,
            entry = VDict [("Description", VStr description)])
    (get_val_dictionary ()).*2.
Proof.
  intros H. apply parse_issue_inv in H as (d & affects & _ & _ & ->).
  cbn [fmap list_fmap fst snd get_val_dictionary].
  split; [|split];
    repeat first [apply List.Forall_nil | apply List.Forall_cons].
  1-5: simpl; split;
    [ intros [x Hx]; first [discriminate Hx | discriminate]
    | intros Hne; first [by destruct Hne | by eexists] ].
  1-5: simpl; split;
    [ intros Hin; first [discriminate | repeat destruct Hin as [Hin|Hin];
                                        discriminate Hin || done]
    | intros Hne; first [by destruct Hne | tauto] ].
  all: eexists; reflexivity.
Qed.

Lemma catalog_and_record_keys_example :
  Forall (λ col, is_Some (dict_lookup col (get_val_dictionary ())) ↔
                 col ≠ "affects") issue_columns ∧
  Forall (λ key, In key issue_columns ↔ key ≠ "subCode")
    (get_val_dictionary ()).*1 ∧
  Forall (λ entry, ∃ description,
            entry = VDict [("Description", VStr description)])
    (get_val_dictionary ()).*2.
Proof.
  apply (catalog_and_record_keys (VDict []) (record_of (VStr "") (VStr "")
           (VStr "") "" (VStr ""))).
  reflexivity.
Defined.

(** ** More on [build_subject_paths] *)

Section PartitionMore.
Variable h : host.

Lemma foldl_add_subject_dom (root_files subs : list string)
    (m0 : gmap string (list string)) :
  dom (foldl (add_subject h root_files) m0 subs)
  = dom m0 ∪ list_to_set (PurePath_name <$> subs).
Proof.
  revert m0. induction subs as [|sub subs IH]; intros m0.
  - simpl. by rewrite union_empty_r_L.
  - rewrite fmap_cons, list_to_set_cons. simpl. rewrite IH.
    unfold add_subject. rewrite dom_insert_L.
    by rewrite (union_comm_L {[PurePath_name sub]} (dom m0)), union_assoc_L.
Qed.

Lemma foldl_add_subject_size (root_files subs : list string)
    (m0 : gmap string (list string)) :
  size (foldl (add_subject h root_files) m0 subs) ≤ size m0 + length subs.
Proof.
  revert m0. induction subs as [|sub subs IH]; intros m0; simpl; [lia|].
  etrans; [apply IH|]. unfold add_subject.
  pose proof (map_size_insert (PurePath_name sub)
    (List.filter (os_path_isfile h) (glob_glob h (sub +:+ "**") true)
     ++ root_files) m0) as Hsize.
  destruct (m0 !! PurePath_name sub); simpl in Hsize; lia.
Qed.

(** X17.  A manifest that is returned is never empty: its keys are exactly
    the names of the subject paths found, so it has at least one key and no
    more keys than subject paths. *)
Theorem manifest_keys (bids_dir : string) (m : gmap string (list string)) :
  build_subject_paths h bids_dir = Returned m →
  dom m = list_to_set (PurePath_name <$> subjects_of h bids_dir) ∧
  m ≠ ∅ ∧
  1 ≤ size m ≤ length (subjects_of h bids_dir).
Proof.
  intros Hm. pose proof Hm as Hsubjects.
  rewrite build_subject_paths_unfold in Hsubjects.
  apply build_subject_paths_inv in Hm as ->.
  destruct (subjects_of h bids_dir) as [|sub subs] eqn:Hsubs; [discriminate|].
  clear Hsubjects.
  assert (is_Some (foldl (add_subject h (listed_root_files h bids_dir)) ∅
                     (sub :: subs) !! PurePath_name sub)) as [files Hkey]
    by apply foldl_add_subject_key, list_elem_of_here.
  split; [|split; [|split]].
  - by rewrite foldl_add_subject_dom, dom_empty_L, union_empty_l_L.
  - intros Hempty. by rewrite Hempty, lookup_empty in Hkey.
  - destruct (size _) eqn:Hsize; [|lia].
    apply map_size_empty_inv in Hsize. by rewrite Hsize, lookup_empty in Hkey.
  - etrans; [apply foldl_add_subject_size|]. by rewrite map_size_empty.
Qed.

(** X18.  Every path in every list of the manifest is a regular file for
    the host: directories and special files are never listed. *)
Theorem manifest_lists_regular_files
    (bids_dir : string) (m : gmap string (list string))
    (label : string) (files : list string) (path : string) :
  build_subject_paths h bids_dir = Returned m →
  m !! label = Some files →
  path ∈ files →
  os_path_isfile h path = true.
Proof.
  intros Hm Hlookup Hin. apply build_subject_paths_inv in Hm as ->.
  apply foldl_add_subject_lookup in Hlookup as [Hempty|(sub & _ & _ & ->)].
  { by rewrite lookup_empty in Hempty. }
  apply elem_of_app in Hin as [Hin|Hin];
    by apply list_elem_of_In, filter_In in Hin as [_ Hfile].
Qed.

(** X19.  When several subject paths have the same name, the list kept
    under that name is the one of the last of them: the files of the
    earlier ones are not in the manifest. *)
Theorem later_subject_overrides
    (bids_dir : string) (m : gmap string (list string))
    (before after : list string) (sub : string) :
  build_subject_paths h bids_dir = Returned m →
  subjects_of h bids_dir = before ++ sub :: after →
  PurePath_name sub ∉ PurePath_name <$> after →
  m !! PurePath_name sub
  = Some (subject_files h sub ++ listed_root_files h bids_dir).
Proof.
  intros Hm Hsubs Hlast. apply build_subject_paths_inv in Hm as ->.
  rewrite Hsubs, foldl_app. simpl.
  rewrite foldl_add_subject_other by done.
  unfold add_subject. by rewrite lookup_insert_eq.
Qed.

(** X20.  When the subject paths found have distinct names, the manifest
    has one key for each of them, and under the name of each path the
    files listed below that very path, followed by the root files. *)
Theorem distinct_names_one_key_each
    (bids_dir : string) (m : gmap string (list string)) :
  build_subject_paths h bids_dir = Returned m →
  NoDup (PurePath_name <$> subjects_of h bids_dir) →
  size m = length (subjects_of h bids_dir) ∧
  ∀ sub, sub ∈ subjects_of h bids_dir →
    m !! PurePath_name sub
    = Some (subject_files h sub ++ listed_root_files h bids_dir).
Proof.
  intros Hm Hnodup. apply build_subject_paths_inv in Hm as ->. split.
  - rewrite <- size_dom, foldl_add_subject_dom, dom_empty_L, union_empty_l_L.
    by rewrite size_list_to_set, length_fmap.
  - intros sub Hin. by apply foldl_add_subject_distinct.
Qed.

End PartitionMore.

Lemma manifest_keys_example :
  ∃ m,
    build_subject_paths (TreeFS.tree_host Samples.dataset) "ds" = Returned m ∧
    dom m = list_to_set (PurePath_name <$> ["ds/sub-01/"; "ds/sub-02/"]) ∧
    m ≠ ∅ ∧ 1 ≤ size m ≤ 2.
Proof.
  assert (subjects_of (TreeFS.tree_host Samples.dataset) "ds" ≠ []) as Hsome
    by (vm_compute; discriminate).
  pose proof (build_subject_paths_found (TreeFS.tree_host Samples.dataset)
                "ds" Hsome) as Hm.
  eexists. split; [exact Hm|].
  exact (manifest_keys (TreeFS.tree_host Samples.dataset) "ds" _ Hm).
Defined.

Lemma manifest_lists_regular_files_example :
  TreeFS.isfile Samples.dataset "ds/sub-02/sub-02_scans.tsv" = true.
Proof.
  assert (subjects_of (TreeFS.tree_host Samples.dataset) "ds" ≠ []) as Hsome
    by (vm_compute; discriminate).
  pose proof (build_subject_paths_found (TreeFS.tree_host Samples.dataset)
                "ds" Hsome) as Hm.
  apply (manifest_lists_regular_files (TreeFS.tree_host Samples.dataset)
           "ds" _ "sub-02"
           ["ds/sub-02/sub-02_scans.tsv"; "ds/dataset_description.json";
            "ds/README"]
           "ds/sub-02/sub-02_scans.tsv" Hm).
  - vm_compute. reflexivity.
  - apply list_elem_of_here.
Defined.

(** Two datasets matched by one wildcard root: both hold a "sub-01", and
    the manifest keeps the files of the second. *)
Lemma later_subject_overrides_example :
  subjects_of (TreeFS.tree_host Samples.two_datasets) "d?"
    = ["d1/sub-01/"; "d2/sub-01/"] ∧
  ∃ m,
    build_subject_paths (TreeFS.tree_host Samples.two_datasets) "d?"
      = Returned m ∧
    m !! "sub-01" = Some ["d2/sub-01/second.json"; "d1/README"].
Proof.
  split; [vm_compute; reflexivity|].
  assert (subjects_of (TreeFS.tree_host Samples.two_datasets) "d?" ≠ [])
    as Hsome by (vm_compute; discriminate).
  pose proof (build_subject_paths_found (TreeFS.tree_host Samples.two_datasets)
                "d?" Hsome) as Hm.
  eexists. split; [exact Hm|].
  refine (later_subject_overrides (TreeFS.tree_host Samples.two_datasets)
            "d?" _ ["d1/sub-01/"] [] "d2/sub-01/" Hm _ _).
  - vm_compute. reflexivity.
  - apply not_elem_of_nil.
Defined.

Lemma distinct_names_one_key_each_example :
  ∃ m,
    build_subject_paths (TreeFS.tree_host Samples.dataset) "ds" = Returned m ∧
    size m = 2.
Proof.
  assert (subjects_of (TreeFS.tree_host Samples.dataset) "ds" ≠ []) as Hsome
    by (vm_compute; discriminate).
  pose proof (build_subject_paths_found (TreeFS.tree_host Samples.dataset)
                "ds" Hsome) as Hm.
  eexists. split; [exact Hm|].
  refine (proj1 (distinct_names_one_key_each
                   (TreeFS.tree_host Samples.dataset) "ds" _ Hm _)).
  change (NoDup ["sub-01"; "sub-02"]).
  repeat (apply NoDup_cons; split);
    [intros H; repeat (apply elem_of_cons in H as [H|H]; [discriminate|]);
     by apply elem_of_nil in H .. | apply NoDup_nil_2].
Defined.

(** ** More on the partition of a directory tree *)

Section TreeMore.
Import TreeFS.
Variable root : node.


(** X21.  The root is not checked for existence: on a tree, a root path
    that holds no wildcard character, no NUL character and no surrogate
    and that names no directory (nothing, or a file) gives the same error
    as a directory without subjects. *)
Theorem missing_root_raises (bids_dir : string) :
  plain_path bids_dir = true →
  (∀ entries, stat root (normalized bids_dir) ≠ Some (Dir entries)) →
  build_subject_paths (tree_host root) bids_dir =
    Raised (ValueError
      ("Couldn't find any subjects in the specified directory:" +:+ newline
       +:+ search_pattern bids_dir)).
Proof.
  intros Hplain Hmissing.
  apply tree_no_subject_directory; [by apply plain_path_no_magic|].
  intros entries Hstat. by destruct (Hmissing entries).
Qed.


End TreeMore.


Lemma missing_root_raises_example :
  plain_path "ds/README" = true ∧
  TreeFS.stat Samples.dataset "ds/README" = Some TreeFS.File ∧
  build_subject_paths (TreeFS.tree_host Samples.dataset) "ds/README" =
    Raised (ValueError
      ("Couldn't find any subjects in the specified directory:" +:+ newline
       +:+ "ds/README/sub-*/")).
Proof.
  split; [reflexivity|]. split; [reflexivity|].
  apply (missing_root_raises Samples.dataset "ds/README").
  - reflexivity.
  - intros entries. vm_compute. discriminate.
Defined.

